(* ===================================================================== *)
(* Cache Stampede Lab: the client strategies of                           *)
(*   learning-materials/basic/incident-003-cache-stampede/lab/scripts/    *)
(*   client.py                                                            *)
(* embedded as programs over Redis commands, with a timed interleaving    *)
(* semantics for the threads each strategy starts. The [print] calls of   *)
(* the script are left out; every other call of a client is a command.    *)
(* ===================================================================== *)

From stdpp Require Import gmap strings list fin_maps pretty.

Open Scope string_scope.
Open Scope list_scope.

(* --------------------------------------------------------------------- *)
(* Python values and truthiness                                           *)
(* --------------------------------------------------------------------- *)

(** What the calls of the script hand back: [None], a [str] (the client is
    built with [decode_responses=True]), a [bool] or an [int]. *)
Inductive pyval : Type :=
| PNone
| PStr (s : string)
| PBool (b : bool)
| PInt (n : Z).

(** [if x:] in Python: [None], [False], [0] and the empty string are false. *)
Definition truthy (v : pyval) : bool :=
  match v with
  | PNone => false
  | PStr s => negb (String.eqb s "")
  | PBool b => b
  | PInt n => negb (n =? 0)%Z
  end.

(** A call either returns a value or raises. *)
Inductive reply : Type :=
| Val (v : pyval)
| Exn.

(* --------------------------------------------------------------------- *)
(* Redis: keys with a value and an optional expiry, times in milliseconds *)
(* --------------------------------------------------------------------- *)

Record entry : Type := mkEntry { value : string; expires_at : option N }.

(** An entry is gone once the clock has passed its expiry time (the
    server's test is [now > when]). *)
Definition live (now : N) (e : entry) : bool :=
  match expires_at e with
  | None => true
  | Some t => (now <=? t)%N
  end.

(** [r.get(k)] *)
Definition redis_get (now : N) (db : gmap string entry) (k : string) : pyval :=
  match db !! k with
  | Some e => if live now e then PStr (value e) else PNone
  | None => PNone
  end.

(** What [r.setex(k, seconds, v)] writes when the server accepts it, that
    is for [seconds] above 0 (2, 5 and 10 in this program); an expiry of 0
    is refused by the server and nothing is written, see [exec_cmd]. *)
Definition redis_setex (now : N) (db : gmap string entry) (k : string)
    (seconds : N) (v : string) : gmap string entry :=
  <[k := mkEntry v (Some (now + 1000 * seconds)%N)]> db.

(** [r.set(k, v, nx=True, ex=seconds)]: [True] when the key was set, [None]
    when a live entry is already there. *)
Definition redis_set_nx_ex (now : N) (db : gmap string entry) (k v : string)
    (seconds : N) : gmap string entry * pyval :=
  match redis_get now db k with
  | PNone => (redis_setex now db k seconds v, PBool true)
  | _ => (db, PNone)
  end.

(** [r.delete(k)] *)
Definition redis_delete (db : gmap string entry) (k : string) : gmap string entry :=
  delete k db.

(* --------------------------------------------------------------------- *)
(* Client programs                                                        *)
(* --------------------------------------------------------------------- *)

(** The calls a client thread makes. [Compute] is the call of
    [expensive_computation]; [Append] is [results.append(v)] and [Incr] is
    [computations += 1]. *)
Inductive cmd : Type :=
| Get (k : string)
| SetEx (k : string) (seconds : N) (v : pyval)
| SetNxEx (k : string) (v : string) (seconds : N)
| Del (k : string)
| Sleep (ms : N)
| Compute (key : string)
| Append (v : pyval)
| Incr.

(** A thread body: it has returned, it has raised, or it makes a call and
    goes on with the reply. *)
Inductive prog : Type :=
| Ret
| Throw
| Do (c : cmd) (k : reply -> prog).

(** A call whose exception is not caught: it propagates. *)
Definition call (c : cmd) (k : pyval -> prog) : prog :=
  Do c (fun r => match r with Val v => k v | Exn => Throw end).

Notation "x <- c ;; p" := (call c (fun x => p))
  (at level 100, c at next level, right associativity).
Notation "c ;; p" := (call c (fun _ => p))
  (at level 100, right associativity).

(** [try: body finally: c] where the clean-up is one call. *)
Fixpoint try_finally (body : prog) (c : cmd) : prog :=
  match body with
  | Ret => c ;; Ret
  | Throw => c ;; Throw
  | Do c' k => Do c' (fun r => try_finally (k r) c)
  end.

Section Clients.

Variable key : string.

(* ---- Strategy 3: lock_cache_concurrent ---- *)

Definition lock_key : string := (key ++ ":lock")%string.

(** [for _ in range(n): sleep; get; if cached: return], then the
    time-out branch. *)
Fixpoint lock_wait (n : nat) : prog :=
  match n with
  | O => _ <- Compute key ;; Ret
  | S n' =>
      Sleep 100 ;;
      cached <- Get key ;;
      if truthy cached then Ret else lock_wait n'
  end.

Definition lock_client : prog :=
  cached <- Get key ;;
  if truthy cached then Ret else
  acquired <- SetNxEx lock_key "locked" 10 ;;
  if truthy acquired then
    try_finally
      (result <- Compute key ;;
       SetEx key 10 result ;;
       Append result ;;
       Ret)
      (Del lock_key)
  else lock_wait 20.

(* ---- Strategy 4: early_expiration_concurrent ---- *)

Definition early_client : prog :=
  cached <- Get key ;;
  if truthy cached then Ret else
  result <- Compute key ;;
  SetEx key 5 result ;;
  Append result ;;
  Ret.

(* ---- Strategy 5: request_coalescing_concurrent ---- *)

Definition computing_key : string := (key ++ ":computing")%string.
Definition result_key : string := (key ++ ":result")%string.

(** [for _ in range(n): get result; if result: setex, return; sleep],
    then the time-out branch. *)
Fixpoint coalesce_wait (n : nat) : prog :=
  match n with
  | O => Ret
  | S n' =>
      result <- Get result_key ;;
      if truthy result then SetEx key 10 result ;; Ret
      else Sleep 100 ;; coalesce_wait n'
  end.

Definition coalesce_client : prog :=
  cached <- Get key ;;
  if truthy cached then Ret else
  computing <- Get computing_key ;;
  if truthy computing then coalesce_wait 30 else
  SetEx computing_key 5 (PStr "1") ;;
  result <- Get result_key ;;
  if truthy result then SetEx key 10 result ;; Ret else
  result <- Compute key ;;
  SetEx result_key 5 result ;;
  SetEx key 10 result ;;
  Del computing_key ;;
  Incr ;;
  Ret.

(* ---- Strategy 1: no_cache_concurrent ---- *)

Definition no_cache_client : prog :=
  _ <- Compute key ;;
  Ret.

(* ---- Strategy 2: naive_cache_concurrent ---- *)

Definition naive_client : prog :=
  cached <- Get key ;;
  if truthy cached then Ret else
  result <- Compute key ;;
  SetEx key 10 result ;;
  Append result ;;
  Ret.

End Clients.

(* --------------------------------------------------------------------- *)
(* The world the threads share                                            *)
(* --------------------------------------------------------------------- *)

(** The function the clients call for the value: what it returns (or that
    it raises) for a key when called at a time, and how long it sleeps. *)
Record executor : Type := mkExecutor {
  exec_reply : string -> N -> reply;
  exec_ms : N
}.

(** [expensive_computation]: sleeps two seconds and returns
    [f"data_{key}_{time.time()}"]; the clock reading is rendered here as
    the millisecond count. *)
Definition expensive_computation : executor :=
  {| exec_reply := fun key t => Val (PStr ("data_" ++ key ++ "_" ++ pretty (t + 2000)%N)%string);
     exec_ms := 2000 |}.

Record world : Type := mkWorld {
  db : gmap string entry;        (* the Redis server *)
  now : N;                       (* wall clock, milliseconds *)
  calls : nat;                   (* invocations of the executor *)
  results : list pyval;          (* the [results] list of strategies 3 and 4 *)
  computations : nat;            (* the [computations] counter of strategy 5 *)
  log : list (nat * cmd)         (* every call made, oldest first, with its thread *)
}.

Definition set_db (f : gmap string entry -> gmap string entry) (w : world) : world :=
  mkWorld (f (db w)) (now w) (calls w) (results w) (computations w) (log w).

Definition advance (d : N) (w : world) : world :=
  mkWorld (db w) (now w + d)%N (calls w) (results w) (computations w) (log w).

Definition logged (i : nat) (c : cmd) (w : world) : world :=
  mkWorld (db w) (now w) (calls w) (results w) (computations w) (log w ++ [(i, c)]).

(** One call of thread [i] against the world: the new world, the reply and
    the time before which the thread does not run again. The Redis client
    stores a string as it is and an [int] as its digits, and refuses [None]
    and [bool] ([DataError]); the server refuses an expiry of 0
    ([ResponseError]) and then stores nothing. A call of the executor is
    counted and logged when it is made; its reply is what the thread goes
    on with once the executor's time is over, at the wake time, and until
    then the thread is inside the executor (see [finished_at]). *)
Definition exec_cmd (ex : executor) (i : nat) (c : cmd) (w0 : world)
    : world * reply * N :=
  let w := logged i c w0 in
  match c with
  | Get k => (w, Val (redis_get (now w) (db w) k), now w)
  | SetEx k seconds (PStr v) =>
      if (seconds =? 0)%N then (w, Exn, now w) else
      (set_db (fun d => redis_setex (now w) d k seconds v) w, Val (PBool true), now w)
  | SetEx k seconds (PInt n) =>
      if (seconds =? 0)%N then (w, Exn, now w) else
      (set_db (fun d => redis_setex (now w) d k seconds (pretty n)) w, Val (PBool true), now w)
  | SetEx _ _ _ => (w, Exn, now w)
  | SetNxEx k v seconds =>
      if (seconds =? 0)%N then (w, Exn, now w) else
      let '(d, r) := redis_set_nx_ex (now w) (db w) k v seconds in
      (set_db (fun _ => d) w, Val r, now w)
  | Del k =>
      (set_db (fun d => redis_delete d k) w,
       Val (PInt (match redis_get (now w) (db w) k with PNone => 0 | _ => 1 end)),
       now w)
  | Sleep ms => (w, Val PNone, (now w + ms)%N)
  | Compute key =>
      (mkWorld (db w) (now w) (S (calls w)) (results w) (computations w) (log w),
       exec_reply ex key (now w), (now w + exec_ms ex)%N)
  | Append v =>
      (mkWorld (db w) (now w) (calls w) (results w ++ [v]) (computations w) (log w),
       Val PNone, now w)
  | Incr =>
      (mkWorld (db w) (now w) (calls w) (results w) (S (computations w)) (log w),
       Val PNone, now w)
  end.

(** A thread: what is left of its body, and when it may run next. *)
Record thread : Type := mkThread { code : prog; wake : N }.

Definition spawn (p : prog) (w : world) : thread := mkThread p (now w).

Definition step_thread (ex : executor) (i : nat) (w : world) (t : thread)
    : world * thread :=
  if (now w <? wake t)%N then (w, t) else
  match code t with
  | Do c k => let '(w', r, wk) := exec_cmd ex i c w in (w', mkThread (k r) wk)
  | _ => (w, t)
  end.

(** What a schedule is made of: thread [i] makes its next call, or time
    passes. *)
Inductive event : Type :=
| Run (i : nat)
| Tick (ms : N).

Definition step (ex : executor) (cfg : world * list thread) (e : event)
    : world * list thread :=
  let '(w, ts) := cfg in
  match e with
  | Tick ms => (advance ms w, ts)
  | Run i =>
      match ts !! i with
      | Some t => let '(w', t') := step_thread ex i w t in (w', <[i := t']> ts)
      | None => cfg
      end
  end.

Definition run (ex : executor) (sch : list event) (cfg : world * list thread)
    : world * list thread :=
  fold_left (step ex) sch cfg.

(* --------------------------------------------------------------------- *)
(* The strategy functions: set-up, then one thread per client             *)
(* --------------------------------------------------------------------- *)

(** The locals [results = []] and [computations = 0] of a strategy. *)
Definition fresh_locals (w : world) : world :=
  mkWorld (db w) (now w) (calls w) [] 0 (log w).

Definition clients (n : nat) (p : prog) (w : world) : world * list thread :=
  (w, replicate n (spawn p w)).

Definition lock_cache_concurrent (key : string) (num_clients : nat) (w : world)
    : world * list thread :=
  let w1 := set_db (fun d => redis_delete d key) w in
  let w2 := set_db (fun d => redis_delete d (lock_key key)) w1 in
  clients num_clients (lock_client key) (fresh_locals w2).

Definition early_expiration_concurrent (key : string) (num_clients : nat) (w : world)
    : world * list thread :=
  let w1 := set_db (fun d => redis_delete d key) w in
  let w2 := set_db (fun d => redis_setex (now w1) d key 2 "initial_value") w1 in
  let w3 := advance 2500 (fresh_locals w2) in
  clients num_clients (early_client key) w3.

Definition request_coalescing_concurrent (key : string) (num_clients : nat) (w : world)
    : world * list thread :=
  let w1 := set_db (fun d => redis_delete d key) w in
  let w2 := set_db (fun d => redis_delete d (computing_key key)) w1 in
  let w3 := set_db (fun d => redis_delete d (result_key key)) w2 in
  clients num_clients (coalesce_client key) (fresh_locals w3).

(** Strategy 1 makes no call to Redis and keeps no count. *)
Definition no_cache_concurrent (key : string) (num_clients : nat) (w : world)
    : world * list thread :=
  clients num_clients (no_cache_client key) w.

Definition naive_cache_concurrent (key : string) (num_clients : nat) (w : world)
    : world * list thread :=
  let w1 := set_db (fun d => redis_delete d key) w in
  clients num_clients (naive_client key) (fresh_locals w1).

(** An empty server at time zero. *)
Definition boot : world := mkWorld ∅ 0 0 [] 0 [].

(** Every thread in turn makes one call, [rounds] times over. *)
Definition round_robin (n rounds : nat) : list event :=
  concat (replicate rounds (map Run (seq 0 n))).

(** Has thread [t] returned, has it raised? *)
Definition returned (t : thread) : bool :=
  match code t with Ret => true | _ => false end.
Definition raised (t : thread) : bool :=
  match code t with Throw => true | _ => false end.

(** The calls thread [i] made, oldest first. *)
Definition calls_of (i : nat) (w : world) : list cmd :=
  map snd (filter (fun e => bool_decide (fst e = i)) (log w)).

(** The calls a body makes when they are answered by [rs] in order, and
    what is left of the body: one thread seen from inside, whatever the
    other threads and the clock do. *)
Fixpoint feed (p : prog) (rs : list reply) : list cmd * prog :=
  match p, rs with
  | Do c k, r :: rs' => let '(cs, q) := feed (k r) rs' in (c :: cs, q)
  | _, _ => ([], p)
  end.

(** A body that makes no further call. *)
Definition finished (p : prog) : bool :=
  match p with Do _ _ => false | _ => true end.

(** A thread has come to its end at a world when nothing is left of its
    body and the call it made last is over: a thread that called the
    executor is inside it until its wake time. *)
Definition finished_at (w : world) (t : thread) : bool :=
  finished (code t) && (wake t <=? now w)%N.

(** Milliseconds of [time.sleep] asked for in a list of calls. *)
Definition slept (cs : list cmd) : N :=
  fold_right (fun c acc => match c with Sleep ms => (ms + acc)%N | _ => acc end) 0%N cs.

(** [n] rounds of the same calls. *)
Definition rounds (n : nat) (cs : list cmd) : list cmd :=
  concat (replicate n cs).

(** The replies of poll rounds that each see [v]: the sleep returns, the
    read returns [v] (strategy 3 sleeps first, strategy 5 reads first). *)
Definition sleep_then_see (vs : list pyval) : list reply :=
  flat_map (fun v => [Val PNone; Val v]) vs.
Definition see_then_sleep (vs : list pyval) : list reply :=
  flat_map (fun v => [Val v; Val PNone]) vs.

(** A call that stays on the keys [ks] and writes with an expiry of at
    most ten seconds. *)
Definition cmd_within (ks : list string) (c : cmd) : Prop :=
  match c with
  | Get k | Del k => k ∈ ks
  | SetEx k seconds _ | SetNxEx k _ seconds => k ∈ ks /\ (seconds <= 10)%N
  | Sleep _ | Compute _ | Append _ | Incr => True
  end.

(** A body all of whose calls, whatever the replies, stay within [ks]. *)
Inductive confined (ks : list string) : prog -> Prop :=
| confined_ret : confined ks Ret
| confined_throw : confined ks Throw
| confined_do (c : cmd) (k : reply -> prog) :
    cmd_within ks c -> (forall r, confined ks (k r)) -> confined ks (Do c k).

(** A body that, whatever the replies, makes at most [n] calls and asks for
    at most [ms] milliseconds of sleep. *)
Inductive bounded : nat -> N -> prog -> Prop :=
| bounded_ret (n : nat) (ms : N) : bounded n ms Ret
| bounded_throw (n : nat) (ms : N) : bounded n ms Throw
| bounded_do (n : nat) (ms : N) (c : cmd) (k : reply -> prog) :
    (slept [c] <= ms)%N ->
    (forall r, bounded n (ms - slept [c]) (k r)) ->
    bounded (S n) ms (Do c k).

(** What a run may have done to the server since [w0] when every call
    stayed within [ks]: the clock has not gone back, keys outside [ks] are
    as they were, and an entry that is not the one of [w0] expires within
    ten seconds. *)
Definition kept (ks : list string) (w0 w : world) : Prop :=
  (now w0 <= now w)%N /\
  (forall k, k ∉ ks -> db w !! k = db w0 !! k) /\
  (forall k e, db w !! k = Some e ->
     db w0 !! k = Some e \/
     exists t, expires_at e = Some t /\ (t <= now w + 10000)%N).

(* --------------------------------------------------------------------- *)
(* The menu of [main]                                                     *)
(* --------------------------------------------------------------------- *)

Inductive strategy : Type :=
| NoCache
| NaiveCache
| LockBased
| EarlyExpiration
| Coalescing.

(** What [main] does between two prompts: it runs a strategy on
    ["expensive_data"], sleeps, or tells the user the choice is invalid. *)
Inductive menu_step : Type :=
| RunStrategy (s : strategy)
| Pause (ms : N)
| InvalidChoice.

(** The [if]/[elif] chain on the stripped choice; [None] is the [break]
    of choice 7. *)
Definition menu_choice (choice : string) : option (list menu_step) :=
  if String.eqb choice "1" then Some [RunStrategy NoCache]
  else if String.eqb choice "2" then Some [RunStrategy NaiveCache]
  else if String.eqb choice "3" then Some [RunStrategy LockBased]
  else if String.eqb choice "4" then Some [RunStrategy EarlyExpiration]
  else if String.eqb choice "5" then Some [RunStrategy Coalescing]
  else if String.eqb choice "6" then
    Some [RunStrategy NoCache; Pause 1000;
          RunStrategy NaiveCache; Pause 1000;
          RunStrategy LockBased; Pause 1000;
          RunStrategy EarlyExpiration; Pause 1000;
          RunStrategy Coalescing]
  else if String.eqb choice "7" then None
  else Some [InvalidChoice].

(** How [main] ends: by the [break] of choice 7, after which it returns;
    by [input] raising at the end of the input; or by a Redis call raising
    in the set-up of a strategy, which nothing catches. *)
Inductive ending : Type :=
| Exited
| InputEnded
| SetupFailed (s : strategy).

(** Strategies 2 to 5 call Redis in [main]'s own thread before they start
    their clients ([r.delete], [r.setex]); strategy 1 calls Redis nowhere.
    What a client thread raises stays in that thread. *)
Definition calls_redis_in_setup (s : strategy) : bool :=
  match s with NoCache => false | _ => true end.

(** The steps of one choice, in order, [i] strategies having been started
    before: [up j] tells whether Redis answers the set-up of the strategy
    started as number [j]. The result is the steps begun, the strategy
    whose set-up raised if one did, and the number of strategies started
    so far. *)
Fixpoint run_steps (up : nat -> bool) (i : nat) (steps : list menu_step)
    : list menu_step * option strategy * nat :=
  match steps with
  | [] => ([], None, i)
  | RunStrategy s :: rest =>
      if calls_redis_in_setup s && negb (up i) then ([RunStrategy s], Some s, S i)
      else
        let '(begun, failed, j) := run_steps up (S i) rest in
        (RunStrategy s :: begun, failed, j)
  | step :: rest =>
      let '(begun, failed, j) := run_steps up i rest in (step :: begun, failed, j)
  end.

(** The [while True] loop over the lines typed at the prompt, [strip]
    being [str.strip]: what is begun, and how the loop is left. *)
Fixpoint menu_loop (strip : string -> string) (up : nat -> bool) (i : nat)
    (lines : list string) : list menu_step * ending :=
  match lines with
  | [] => ([], InputEnded)
  | line :: rest =>
      match menu_choice (strip line) with
      | None => ([], Exited)
      | Some steps =>
          let '(begun, failed, j) := run_steps up i steps in
          match failed with
          | Some s => (begun, SetupFailed s)
          | None =>
              let '(more, e) := menu_loop strip up j rest in (begun ++ more, e)
          end
      end
  end.

(** [main]: one second for Redis to come up, then the loop. *)
Definition main (strip : string -> string) (up : nat -> bool) (lines : list string)
    : list menu_step * ending :=
  let '(steps, e) := menu_loop strip up 0 lines in (Pause 1000 :: steps, e).

(** The strategy function [main] calls for a choice. *)
Definition strategy_start (s : strategy) (key : string) (num_clients : nat) (w : world)
    : world * list thread :=
  match s with
  | NoCache => no_cache_concurrent key num_clients w
  | NaiveCache => naive_cache_concurrent key num_clients w
  | LockBased => lock_cache_concurrent key num_clients w
  | EarlyExpiration => early_expiration_concurrent key num_clients w
  | Coalescing => request_coalescing_concurrent key num_clients w
  end.

(** Invocations of the executor a call stands for. *)
Definition is_compute (c : cmd) : nat :=
  match c with Compute _ => 1 | _ => 0 end.

(** A body that, whatever the replies, calls the executor at most [n]
    times. *)
Inductive computes : nat -> prog -> Prop :=
| computes_ret (n : nat) : computes n Ret
| computes_throw (n : nat) : computes n Throw
| computes_do (n : nat) (c : cmd) (k : reply -> prog) :
    is_compute c <= n ->
    (forall r, computes (n - is_compute c) (k r)) ->
    computes n (Do c k).

(** Milliseconds a list of calls keeps its thread from running: the
    [time.sleep] of the client itself and the time the executor takes. *)
Definition blocked (ex : executor) (cs : list cmd) : N :=
  fold_right (fun c acc => match c with
                           | Sleep ms => (ms + acc)%N
                           | Compute _ => (exec_ms ex + acc)%N
                           | _ => acc
                           end) 0%N cs.

(** The number under which the menu lists a strategy. *)
Definition choice_of (s : strategy) : string :=
  match s with
  | NoCache => "1"
  | NaiveCache => "2"
  | LockBased => "3"
  | EarlyExpiration => "4"
  | Coalescing => "5"
  end.

(** What a call adds to the count a strategy reports at its end:
    [len(results)] or [computations]. *)
Definition is_count (c : cmd) : nat :=
  match c with Append _ | Incr => 1 | _ => 0 end.

(** A body that, whatever the replies, counts only invocations it has
    made: [n] is the number of invocations made and not yet counted. *)
Inductive accounted : nat -> prog -> Prop :=
| accounted_ret (n : nat) : accounted n Ret
| accounted_throw (n : nat) : accounted n Throw
| accounted_do (n : nat) (c : cmd) (k : reply -> prog) :
    is_count c <= n + is_compute c ->
    (forall r, accounted (n + is_compute c - is_count c) (k r)) ->
    accounted n (Do c k).

(** A schedule of strategy 3 with [S m] clients in which the lock does its
    work: every client reads the key, then asks for the lock, client 0
    first; client 0 computes and commits while the others are kept
    waiting; then each of the others makes its first poll. *)
Definition single_flyer_schedule (ex : executor) (m : nat) : list event :=
  round_robin (S m) 2 ++
  [Run 0; Tick (exec_ms ex); Run 0; Run 0; Run 0] ++
  map Run (seq 1 m) ++ [Tick 100] ++ map Run (seq 1 m).

(** Unfold the world updates and project. *)
Ltac world_simpl :=
  unfold advance, logged, set_db, fresh_locals;
  cbn [now db calls results computations log fst snd N.eqb].

(* ===================================================================== *)
(* Basic facts                                                            *)
(* ===================================================================== *)

Lemma truthy_str (s : string) : s ≠ "" -> truthy (PStr s) = true.
Proof.
  intros Hs. simpl. apply negb_true_iff. by apply String.eqb_neq.
Qed.

Lemma redis_get_live (t : N) (d : gmap string entry) (k : string) (e : entry) :
  d !! k = Some e -> live t e = true -> redis_get t d k = PStr (value e).
Proof. intros Hk Hl. unfold redis_get. by rewrite Hk, Hl. Qed.

Lemma redis_get_setex (t : N) (d : gmap string entry) (k : string) (s : N) (v : string) :
  redis_get t (redis_setex t d k s v) k = PStr v.
Proof. unfold redis_get, redis_setex. rewrite lookup_insert_eq.
  unfold live. simpl. destruct (N.leb_spec t (t + 1000 * s)); [done | lia].
Qed.

(** Once its expiry has passed, a key written by [setex] reads as absent. *)
Lemma redis_get_expired (t0 t : N) (d : gmap string entry) (k : string) (s : N) (v : string) :
  (t0 + 1000 * s < t)%N -> redis_get t (redis_setex t0 d k s v) k = PNone.
Proof.
  intros Ht. unfold redis_get, redis_setex. rewrite lookup_insert_eq.
  unfold live. simpl. destruct (N.leb_spec t (t0 + 1000 * s)); [lia | done].
Qed.

Lemma redis_get_setex_ne (t t0 : N) (d : gmap string entry) (k k' : string) (s : N) (v : string) :
  k ≠ k' -> redis_get t (redis_setex t0 d k s v) k' = redis_get t d k'.
Proof. intros Hne. unfold redis_get, redis_setex. by rewrite lookup_insert_ne. Qed.

(** A read that is false stays false while nobody writes the key: time
    only takes entries away. *)
Lemma miss_stays_miss (t d' : N) (d : gmap string entry) (k : string) :
  truthy (redis_get t d k) = false -> truthy (redis_get (t + d') d k) = false.
Proof.
  unfold redis_get. destruct (d !! k) as [e|]; [|done].
  unfold live. destruct (expires_at e) as [x|]; [|done].
  destruct (N.leb_spec t x), (N.leb_spec (t + d') x); try done. lia.
Qed.

(** The keys of one strategy are different keys. *)
Lemma key_ne_suffix (k sfx : string) : sfx ≠ "" -> k ≠ (k ++ sfx)%string.
Proof.
  intros Hs Heq. apply Hs. induction k as [|a k IH]; simpl in Heq.
  - done.
  - injection Heq as Heq. by apply IH.
Qed.

Lemma suffix_inj (k a b : string) : (k ++ a = k ++ b)%string -> a = b.
Proof.
  induction k as [|c k IH]; simpl; [done|]. intros Heq. injection Heq as Heq. by apply IH.
Qed.

Lemma key_ne_lock (k : string) : k ≠ lock_key k.
Proof. by apply key_ne_suffix. Qed.

Lemma key_ne_computing (k : string) : k ≠ computing_key k.
Proof. by apply key_ne_suffix. Qed.

Lemma key_ne_result (k : string) : k ≠ result_key k.
Proof. by apply key_ne_suffix. Qed.

Lemma computing_ne_result (k : string) : computing_key k ≠ result_key k.
Proof. intros Heq. apply suffix_inj in Heq. discriminate. Qed.

(** A thread whose body is over does nothing more. *)
Lemma step_thread_done (ex : executor) (i : nat) (w : world) (t : thread) :
  finished (code t) = true -> step_thread ex i w t = (w, t).
Proof.
  intros Hf. unfold step_thread. destruct (now w <? wake t)%N; [done|].
  by destruct (code t).
Qed.

Lemma run_done (ex : executor) (w : world) (t : thread) (m : nat) :
  finished (code t) = true ->
  run ex (replicate m (Run 0)) (w, [t]) = (w, [t]).
Proof.
  intros Hf. induction m as [|m IH]; [done|].
  simpl. rewrite step_thread_done by done. simpl. apply IH.
Qed.

Lemma run_app (ex : executor) (s1 s2 : list event) (cfg : world * list thread) :
  run ex (s1 ++ s2) cfg = run ex s2 (run ex s1 cfg).
Proof. apply fold_left_app. Qed.

(* ===================================================================== *)
(* The fast path                                                          *)
(* ===================================================================== *)

(** The probe of a runnable thread whose body starts with [r.get(key)]. *)
Lemma probe_step (ex : executor) (w : world) (key : string) (k : reply -> prog) (wk : N) :
  (wk <= now w)%N ->
  step ex (w, [mkThread (Do (Get key) k) wk]) (Run 0) =
  (logged 0 (Get key) w,
   [mkThread (k (Val (redis_get (now w) (db w) key))) (now w)]).
Proof.
  intros Hwk. unfold step. simpl. unfold step_thread. simpl.
  destruct (N.ltb_spec (now w) wk); [lia | done].
Qed.

(** C8, as amended: when the cache holds a live, non-empty entry for the
    key, a client of strategy 3 or 5 makes exactly one call, the read of the
    key, and returns: the server is left as it was (no lock or marker is
    written, nothing is set or deleted), however often the thread is
    scheduled again. *)
Theorem fast_path_hit (ex : executor) (w : world) (key : string) (e : entry)
    (p : prog) (wk : N) (m : nat) :
  p = lock_client key \/ p = coalesce_client key ->
  (wk <= now w)%N ->
  db w !! key = Some e -> live (now w) e = true -> value e ≠ "" ->
  run ex (replicate (S m) (Run 0)) (w, [mkThread p wk]) =
  (logged 0 (Get key) w, [mkThread Ret (now w)]).
Proof.
  intros Hp Hwk Hk Hl Hv.
  change (replicate (S m) (Run 0)) with ([Run 0] ++ replicate m (Run 0)).
  rewrite run_app.
  change (run ex [Run 0] (w, [mkThread p wk]))
    with (step ex (w, [mkThread p wk]) (Run 0)).
  assert (Hstep : step ex (w, [mkThread p wk]) (Run 0) =
                  (logged 0 (Get key) w, [mkThread Ret (now w)])).
  { destruct Hp as [-> | ->]; unfold lock_client, coalesce_client, call;
      rewrite probe_step by done;
      rewrite (redis_get_live _ _ _ e) by done;
      rewrite truthy_str by done; reflexivity. }
  rewrite Hstep. by apply run_done.
Qed.

Lemma fast_path_hit_witness :
  let w := set_db (fun d => redis_setex 0 d "k" 10 "v") boot in
  run expensive_computation (replicate 3 (Run 0)) (w, [mkThread (lock_client "k") 0]) =
  (logged 0 (Get "k") w, [mkThread Ret 0]).
Proof.
  intros w.
  apply (fast_path_hit expensive_computation w "k" (mkEntry "v" (Some 10000%N))
           (lock_client "k") 0%N 2).
  - by left.
  - simpl. lia.
  - reflexivity.
  - reflexivity.
  - discriminate.
Defined.

(** C8 as stated fails when the live entry is the empty string: [if cached:]
    is false for it, so the client of strategy 3 goes on to take the lock,
    and that of strategy 5 to write its marker. *)
Lemma fast_path_empty_value :
  let w := set_db (fun d => redis_setex 0 d "k" 10 "") boot in
  db w !! "k" = Some (mkEntry "" (Some 10000%N)) /\
  live (now w) (mkEntry "" (Some 10000%N)) = true /\
  calls_of 0 (fst (run expensive_computation [Run 0; Run 0]
                     (w, [spawn (lock_client "k") w]))) =
    [Get "k"; SetNxEx "k:lock" "locked" 10] /\
  calls_of 0 (fst (run expensive_computation [Run 0; Run 0; Run 0]
                     (w, [spawn (coalesce_client "k") w]))) =
    [Get "k"; Get "k:computing"; SetEx "k:computing" 5 (PStr "1")].
Proof. vm_compute. repeat split; reflexivity. Qed.

(* ===================================================================== *)
(* Strategy 5: what a waiter does with the result slot                    *)
(* ===================================================================== *)


(** A client of strategy 5 that finds the key missing and the marker set
    becomes a waiter with thirty polls ahead of it. *)
Lemma coalesce_client_waiter (key : string) (c m : pyval) :
  truthy c = false -> truthy m = true ->
  feed (coalesce_client key) [Val c; Val m] =
  ([Get key; Get (computing_key key)], coalesce_wait key 30).
Proof.
  intros Hc Hm. unfold coalesce_client, call. cbn [feed]. rewrite Hc. cbn [feed]. by rewrite Hm.
Qed.



(* ===================================================================== *)
(* Leases expire: a filler that dies holding one                          *)
(* ===================================================================== *)

Lemma step_tick (ex : executor) (w : world) (ts : list thread) (ms : N) :
  step ex (w, ts) (Tick ms) = (advance ms w, ts).
Proof. reflexivity. Qed.

(** One call of thread [i] of a pool, when it may run. *)
Lemma step_at (ex : executor) (w : world) (ts : list thread) (i : nat)
    (c : cmd) (k : reply -> prog) (wk : N) :
  ts !! i = Some (mkThread (Do c k) wk) ->
  (wk <= now w)%N ->
  step ex (w, ts) (Run i) =
  (fst (fst (exec_cmd ex i c w)),
   <[i := mkThread (k (snd (fst (exec_cmd ex i c w)))) (snd (exec_cmd ex i c w))]> ts).
Proof.
  intros Hi Hwk. unfold step. rewrite Hi. unfold step_thread. simpl.
  destruct (N.ltb_spec (now w) wk); [lia |].
  by destruct (exec_cmd ex i c w) as [[w' r] wk'].
Qed.

Lemma exec_set_nx_free (ex : executor) (i : nat) (w : world) (k v : string) (s : positive) :
  redis_get (now w) (db w) k = PNone ->
  exec_cmd ex i (SetNxEx k v (N.pos s)) w =
  (set_db (fun d => redis_setex (now w) d k (N.pos s) v) (logged i (SetNxEx k v (N.pos s)) w),
   Val (PBool true), now w).
Proof.
  intros Hfree. unfold exec_cmd, redis_set_nx_ex. cbn [N.eqb].
  change (now (logged i (SetNxEx k v (N.pos s)) w)) with (now w).
  change (db (logged i (SetNxEx k v (N.pos s)) w)) with (db w).
  by rewrite Hfree.
Qed.

(** Strategy 3. The first client misses and takes the lock, then is never
    scheduled again. A client that starts [d] milliseconds later, with
    [d] more than the lock's ten seconds, misses, is granted the lock and
    calls the executor. *)
Lemma lock_crash_recovery (ex : executor) (w : world) (key : string) (d : N) :
  truthy (redis_get (now w) (db w) key) = false ->
  redis_get (now w) (db w) (lock_key key) = PNone ->
  (10000 < d)%N ->
  let pool := [spawn (lock_client key) w; mkThread (lock_client key) (now w + d)] in
  let held := run ex [Run 0; Run 0] (w, pool) in
  let cfg := run ex [Tick d; Run 1; Run 1; Run 1] held in
  db (fst held) !! lock_key key = Some (mkEntry "locked" (Some (now w + 10000)%N)) /\
  db (fst cfg) !! lock_key key = Some (mkEntry "locked" (Some (now w + d + 10000)%N)) /\
  calls (fst cfg) = S (calls w) /\
  log (fst cfg) =
    log w ++ [(0, Get key); (0, SetNxEx (lock_key key) "locked" 10);
               (1, Get key); (1, SetNxEx (lock_key key) "locked" 10);
               (1, Compute key)].
Proof.
  intros Hmiss Hfree Hd pool held cfg.
  destruct w as [d0 t0 c0 r0 n0 l0]. cbn [now db calls log] in *.
  assert (Hheld : held =
    (mkWorld (redis_setex t0 d0 (lock_key key) 10 "locked") t0 c0 r0 n0
       ((l0 ++ [(0, Get key)]) ++ [(0, SetNxEx (lock_key key) "locked" 10)]),
     [mkThread (try_finally
                  (result <- Compute key ;; SetEx key 10 result ;; Append result ;; Ret)
                  (Del (lock_key key))) t0;
      mkThread (lock_client key) (t0 + d)])).
  { subst held pool.
    change (run ex [Run 0; Run 0] ?c) with (step ex (step ex c (Run 0)) (Run 0)).
    unfold spawn, lock_client at 1, call at 1. cbn [now].
    erewrite step_at; [| reflexivity | cbn; lia].
    cbn [exec_cmd fst snd logged now db log calls results computations].
    rewrite Hmiss. unfold call at 1.
    erewrite step_at; [| reflexivity | cbn; lia].
    rewrite exec_set_nx_free by exact Hfree.
    reflexivity. }
  assert (Hcfg : fst cfg =
    mkWorld (redis_setex (t0 + d) (redis_setex t0 d0 (lock_key key) 10 "locked")
               (lock_key key) 10 "locked") (t0 + d) (S c0) r0 n0
      (((((l0 ++ [(0, Get key)]) ++ [(0, SetNxEx (lock_key key) "locked" 10)])
         ++ [(1, Get key)]) ++ [(1, SetNxEx (lock_key key) "locked" 10)])
       ++ [(1, Compute key)])).
  { subst cfg. rewrite Hheld.
    change (run ex [Tick d; Run 1; Run 1; Run 1] ?c)
      with (step ex (step ex (step ex (step ex c (Tick d)) (Run 1)) (Run 1)) (Run 1)).
    rewrite step_tick. world_simpl.
    unfold lock_client at 1, call at 1.
    erewrite step_at; [| reflexivity | cbn; lia].
    cbn [exec_cmd N.eqb]. world_simpl.
    rewrite redis_get_setex_ne by (intros Heq; symmetry in Heq; by apply key_ne_lock in Heq).
    rewrite miss_stays_miss by exact Hmiss.
    unfold call at 1.
    erewrite step_at; [| reflexivity | cbn; lia].
    rewrite exec_set_nx_free by (cbn [now db]; apply redis_get_expired; lia).
    world_simpl. cbn [truthy try_finally call].
    erewrite step_at; [| reflexivity | cbn; lia].
    reflexivity. }
  rewrite Hcfg, Hheld. cbn [fst db calls log].
  repeat split.
  - unfold redis_setex. by rewrite lookup_insert_eq.
  - unfold redis_setex. by rewrite lookup_insert_eq.
  - by rewrite <- !app_assoc.
Qed.

(** Strategy 5. The first client misses, finds no marker and writes it,
    then is never scheduled again. A client that starts [d] milliseconds
    later, with [d] more than the marker's five seconds, misses, finds no
    marker, writes its own, finds no result and calls the executor. *)
Lemma coalesce_crash_recovery (ex : executor) (w : world) (key : string) (d : N) :
  truthy (redis_get (now w) (db w) key) = false ->
  truthy (redis_get (now w) (db w) (computing_key key)) = false ->
  truthy (redis_get (now w) (db w) (result_key key)) = false ->
  (5000 < d)%N ->
  let pool := [spawn (coalesce_client key) w; mkThread (coalesce_client key) (now w + d)] in
  let held := run ex [Run 0; Run 0; Run 0] (w, pool) in
  let cfg := run ex [Tick d; Run 1; Run 1; Run 1; Run 1; Run 1] held in
  db (fst held) !! computing_key key = Some (mkEntry "1" (Some (now w + 5000)%N)) /\
  db (fst cfg) !! computing_key key = Some (mkEntry "1" (Some (now w + d + 5000)%N)) /\
  calls (fst cfg) = S (calls w) /\
  log (fst cfg) =
    log w ++ [(0, Get key); (0, Get (computing_key key));
               (0, SetEx (computing_key key) 5 (PStr "1"));
               (1, Get key); (1, Get (computing_key key));
               (1, SetEx (computing_key key) 5 (PStr "1"));
               (1, Get (result_key key)); (1, Compute key)].
Proof.
  intros Hmiss Hfree Hres Hd pool held cfg.
  destruct w as [d0 t0 c0 r0 n0 l0]. cbn [now db calls log] in *.
  pose proof (key_ne_computing key) as Hkc.
  pose proof (computing_ne_result key) as Hcr.
  assert (Hheld : held =
    (mkWorld (redis_setex t0 d0 (computing_key key) 5 "1") t0 c0 r0 n0
       (((l0 ++ [(0, Get key)]) ++ [(0, Get (computing_key key))])
        ++ [(0, SetEx (computing_key key) 5 (PStr "1"))]),
     [mkThread (result <- Get (result_key key) ;;
                if truthy result then SetEx key 10 result ;; Ret else
                result <- Compute key ;;
                SetEx (result_key key) 5 result ;;
                SetEx key 10 result ;;
                Del (computing_key key) ;;
                Incr ;;
                Ret) t0;
      mkThread (coalesce_client key) (t0 + d)])).
  { subst held pool.
    change (run ex [Run 0; Run 0; Run 0] ?c)
      with (step ex (step ex (step ex c (Run 0)) (Run 0)) (Run 0)).
    unfold spawn, coalesce_client at 1, call at 1. cbn [now].
    erewrite step_at; [| reflexivity | cbn; lia].
    cbn [exec_cmd N.eqb]. world_simpl. rewrite Hmiss. unfold call at 1.
    erewrite step_at; [| reflexivity | cbn; lia].
    cbn [exec_cmd N.eqb]. world_simpl. rewrite Hfree. unfold call at 1.
    erewrite step_at; [| reflexivity | cbn; lia].
    reflexivity. }
  assert (Hcfg : fst cfg =
    mkWorld (redis_setex (t0 + d) (redis_setex t0 d0 (computing_key key) 5 "1")
               (computing_key key) 5 "1") (t0 + d) (S c0) r0 n0
      ((((((((l0 ++ [(0, Get key)]) ++ [(0, Get (computing_key key))])
            ++ [(0, SetEx (computing_key key) 5 (PStr "1"))])
           ++ [(1, Get key)]) ++ [(1, Get (computing_key key))])
         ++ [(1, SetEx (computing_key key) 5 (PStr "1"))])
        ++ [(1, Get (result_key key))]) ++ [(1, Compute key)])).
  { subst cfg. rewrite Hheld.
    change (run ex [Tick d; Run 1; Run 1; Run 1; Run 1; Run 1] ?c)
      with (step ex (step ex (step ex (step ex (step ex (step ex c
              (Tick d)) (Run 1)) (Run 1)) (Run 1)) (Run 1)) (Run 1)).
    rewrite step_tick. world_simpl.
    unfold coalesce_client at 1, call at 1.
    erewrite step_at; [| reflexivity | cbn; lia].
    cbn [exec_cmd N.eqb]. world_simpl.
    rewrite redis_get_setex_ne by (intros Heq; symmetry in Heq; by apply Hkc in Heq).
    rewrite miss_stays_miss by exact Hmiss.
    unfold call at 1.
    erewrite step_at; [| reflexivity | cbn; lia].
    cbn [exec_cmd N.eqb]. world_simpl.
    rewrite redis_get_expired by lia. cbn [truthy]. unfold call at 1.
    erewrite step_at; [| reflexivity | cbn; lia].
    cbn [exec_cmd N.eqb]. world_simpl. unfold call at 1.
    erewrite step_at; [| reflexivity | cbn; lia].
    cbn [exec_cmd N.eqb]. world_simpl.
    rewrite !redis_get_setex_ne by exact Hcr.
    rewrite miss_stays_miss by exact Hres.
    unfold call at 1.
    erewrite step_at; [| reflexivity | cbn; lia].
    reflexivity. }
  rewrite Hcfg, Hheld. cbn [fst db calls log].
  repeat split.
  - unfold redis_setex. by rewrite lookup_insert_eq.
  - unfold redis_setex. by rewrite lookup_insert_eq.
  - by rewrite <- !app_assoc.
Qed.

(** C9: the lock of strategy 3 is written with a ten-second expiry and the
    marker of strategy 5 with a five-second one; when the client that wrote
    it dies right after writing it, a client that starts once that time has
    passed (more than ten seconds later in strategy 3, more than five in
    strategy 5) is granted the lock (finds no marker and writes its own)
    and calls the executor. *)
Theorem crashed_filler_recovers (ex : executor) (w : world) (key : string) (d3 d5 : N) :
  truthy (redis_get (now w) (db w) key) = false ->
  redis_get (now w) (db w) (lock_key key) = PNone ->
  truthy (redis_get (now w) (db w) (computing_key key)) = false ->
  truthy (redis_get (now w) (db w) (result_key key)) = false ->
  (10000 < d3)%N ->
  (5000 < d5)%N ->
  (let pool := [spawn (lock_client key) w; mkThread (lock_client key) (now w + d3)] in
   let held := run ex [Run 0; Run 0] (w, pool) in
   let cfg := run ex [Tick d3; Run 1; Run 1; Run 1] held in
   db (fst held) !! lock_key key = Some (mkEntry "locked" (Some (now w + 10000)%N)) /\
   db (fst cfg) !! lock_key key = Some (mkEntry "locked" (Some (now w + d3 + 10000)%N)) /\
   calls (fst cfg) = S (calls w) /\
   log (fst cfg) =
     log w ++ [(0, Get key); (0, SetNxEx (lock_key key) "locked" 10);
                (1, Get key); (1, SetNxEx (lock_key key) "locked" 10);
                (1, Compute key)]) /\
  (let pool := [spawn (coalesce_client key) w; mkThread (coalesce_client key) (now w + d5)] in
   let held := run ex [Run 0; Run 0; Run 0] (w, pool) in
   let cfg := run ex [Tick d5; Run 1; Run 1; Run 1; Run 1; Run 1] held in
   db (fst held) !! computing_key key = Some (mkEntry "1" (Some (now w + 5000)%N)) /\
   db (fst cfg) !! computing_key key = Some (mkEntry "1" (Some (now w + d5 + 5000)%N)) /\
   calls (fst cfg) = S (calls w) /\
   log (fst cfg) =
     log w ++ [(0, Get key); (0, Get (computing_key key));
                (0, SetEx (computing_key key) 5 (PStr "1"));
                (1, Get key); (1, Get (computing_key key));
                (1, SetEx (computing_key key) 5 (PStr "1"));
                (1, Get (result_key key)); (1, Compute key)]).
Proof.
  intros Hmiss Hlock Hmark Hres Hd3 Hd5. split.
  - by apply lock_crash_recovery.
  - by apply coalesce_crash_recovery.
Qed.

Lemma crashed_filler_recovers_witness :
  (let pool := [spawn (lock_client "k") boot; mkThread (lock_client "k") 10001] in
   let held := run expensive_computation [Run 0; Run 0] (boot, pool) in
   let cfg := run expensive_computation [Tick 10001; Run 1; Run 1; Run 1] held in
   db (fst held) !! "k:lock" = Some (mkEntry "locked" (Some 10000%N)) /\
   db (fst cfg) !! "k:lock" = Some (mkEntry "locked" (Some 20001%N)) /\
   calls (fst cfg) = 1 /\
   log (fst cfg) =
     [(0, Get "k"); (0, SetNxEx "k:lock" "locked" 10);
      (1, Get "k"); (1, SetNxEx "k:lock" "locked" 10); (1, Compute "k")]) /\
  (let pool := [spawn (coalesce_client "k") boot; mkThread (coalesce_client "k") 5001] in
   let held := run expensive_computation [Run 0; Run 0; Run 0] (boot, pool) in
   let cfg := run expensive_computation [Tick 5001; Run 1; Run 1; Run 1; Run 1; Run 1] held in
   db (fst held) !! "k:computing" = Some (mkEntry "1" (Some 5000%N)) /\
   db (fst cfg) !! "k:computing" = Some (mkEntry "1" (Some 10001%N)) /\
   calls (fst cfg) = 1 /\
   log (fst cfg) =
     [(0, Get "k"); (0, Get "k:computing"); (0, SetEx "k:computing" 5 (PStr "1"));
      (1, Get "k"); (1, Get "k:computing"); (1, SetEx "k:computing" 5 (PStr "1"));
      (1, Get "k:result"); (1, Compute "k")]).
Proof.
  apply (crashed_filler_recovers expensive_computation boot "k" 10001%N 5001%N).
  - reflexivity.
  - reflexivity.
  - reflexivity.
  - reflexivity.
  - simpl. lia.
  - simpl. lia.
Defined.

(* ===================================================================== *)
(* Waiters, seen from inside                                              *)
(* ===================================================================== *)

Lemma feed_call (c : cmd) (k : pyval -> prog) (v : pyval) (rs : list reply) :
  feed (call c k) (Val v :: rs) = (c :: fst (feed (k v) rs), snd (feed (k v) rs)).
Proof. unfold call. cbn [feed]. by destruct (feed (k v) rs). Qed.

Lemma feed_nil (p : prog) : feed p [] = ([], p).
Proof. by destruct p. Qed.

Lemma feed_ret (rs : list reply) : feed Ret rs = ([], Ret).
Proof. reflexivity. Qed.

(** Polls of strategy 3 that all miss: each is a sleep and a read of the
    key, and the loop goes on with the polls that are left. *)
Lemma lock_wait_miss (key : string) (vs : list pyval) (m : nat) (rs : list reply) :
  Forall (fun v => truthy v = false) vs ->
  feed (lock_wait key (length vs + m)) (sleep_then_see vs ++ rs) =
  (rounds (length vs) [Sleep 100; Get key] ++ fst (feed (lock_wait key m) rs),
   snd (feed (lock_wait key m) rs)).
Proof.
  induction 1 as [|v vs Hv _ IH].
  - simpl. by destruct (feed (lock_wait key m) rs).
  - cbn [length Nat.add lock_wait sleep_then_see flat_map app].
    rewrite !feed_call, Hv.
    change (flat_map (fun v => [Val PNone; Val v]) vs) with (sleep_then_see vs).
    rewrite IH. reflexivity.
Qed.

(** Polls of strategy 5 that all miss: each is a read of the result slot
    and a sleep. *)
Lemma coalesce_wait_miss (key : string) (vs : list pyval) (m : nat) (rs : list reply) :
  Forall (fun v => truthy v = false) vs ->
  feed (coalesce_wait key (length vs + m)) (see_then_sleep vs ++ rs) =
  (rounds (length vs) [Get (result_key key); Sleep 100]
     ++ fst (feed (coalesce_wait key m) rs),
   snd (feed (coalesce_wait key m) rs)).
Proof.
  induction 1 as [|v vs Hv _ IH].
  - simpl. by destruct (feed (coalesce_wait key m) rs).
  - cbn [length Nat.add coalesce_wait see_then_sleep flat_map app].
    rewrite feed_call, Hv, feed_call.
    change (flat_map (fun v => [Val v; Val PNone]) vs) with (see_then_sleep vs).
    rewrite IH. reflexivity.
Qed.

Lemma slept_app (cs ds : list cmd) : slept (cs ++ ds) = (slept cs + slept ds)%N.
Proof.
  induction cs as [|c cs IH]; simpl; [done|]. rewrite IH. destruct c; lia.
Qed.

Lemma slept_poll_rounds (n : nat) (c : cmd) :
  (forall ms, c ≠ Sleep ms) ->
  slept (rounds n [Sleep 100; c]) = (100 * N.of_nat n)%N /\
  slept (rounds n [c; Sleep 100]) = (100 * N.of_nat n)%N.
Proof.
  intros Hc. induction n as [|n [IH1 IH2]]; [done|].
  unfold rounds in *. cbn [replicate concat app slept fold_right] in *.
  fold (slept (concat (replicate n [Sleep 100; c]))).
  fold (slept (concat (replicate n [c; Sleep 100]))).
  rewrite IH1, IH2. destruct c; try lia. by destruct (Hc ms).
Qed.

(** A client of strategy 3 that misses and is refused the lock becomes a
    waiter with twenty polls ahead of it. *)
Lemma lock_client_waiter (key : string) (c a : pyval) (rs : list reply) :
  truthy c = false -> truthy a = false ->
  feed (lock_client key) (Val c :: Val a :: rs) =
  (Get key :: SetNxEx (lock_key key) "locked" 10 :: fst (feed (lock_wait key 20) rs),
   snd (feed (lock_wait key 20) rs)).
Proof.
  intros Hc Ha. unfold lock_client. rewrite feed_call, Hc, feed_call, Ha. reflexivity.
Qed.

Lemma coalesce_client_waiter_feed (key : string) (c m : pyval) (rs : list reply) :
  truthy c = false -> truthy m = true ->
  feed (coalesce_client key) (Val c :: Val m :: rs) =
  (Get key :: Get (computing_key key) :: fst (feed (coalesce_wait key 30) rs),
   snd (feed (coalesce_wait key 30) rs)).
Proof.
  intros Hc Hm. unfold coalesce_client. rewrite feed_call, Hc, feed_call, Hm. reflexivity.
Qed.

(* ===================================================================== *)
(* Waiters, on the clock                                                  *)
(* ===================================================================== *)

Lemma rounds_S (n : nat) (cs : list cmd) : rounds (S n) cs = cs ++ rounds n cs.
Proof. reflexivity. Qed.

(** Polls of the second thread of a pool, in strategy 3, while nobody
    writes the key: each poll takes [d] milliseconds, the 100 of its sleep
    and what the schedule adds before the read is served, and misses. *)
Lemma lock_wait_polls (ex : executor) (key : string) (t0 : thread) (m : nat) (d : N) :
  (100 <= d)%N ->
  forall (n : nat) (w : world),
  truthy (redis_get (now w) (db w) key) = false ->
  run ex (concat (replicate n [Run 1; Tick d; Run 1]))
    (w, [t0; mkThread (lock_wait key (n + m)) (now w)]) =
  (mkWorld (db w) (now w + d * N.of_nat n) (calls w) (results w) (computations w)
     (log w ++ map (pair 1) (rounds n [Sleep 100; Get key])),
   [t0; mkThread (lock_wait key m) (now w + d * N.of_nat n)]).
Proof.
  intros Hd. induction n as [|n IH]; intros w Hmiss.
  - destruct w as [d0 t c0 r0 n0 l0]. cbn [replicate concat run fold_left rounds map].
    cbn [now db calls results computations log Nat.add N.of_nat].
    rewrite N.mul_0_r, N.add_0_r, app_nil_r. reflexivity.
  - cbn [replicate concat]. rewrite run_app.
    destruct w as [d0 t c0 r0 n0 l0]. cbn [now db calls results computations log] in *.
    assert (Hround :
      run ex [Run 1; Tick d; Run 1]
        (mkWorld d0 t c0 r0 n0 l0, [t0; mkThread (lock_wait key (S n + m)) t]) =
      (mkWorld d0 (t + d) c0 r0 n0 ((l0 ++ [(1, Sleep 100)]) ++ [(1, Get key)]),
       [t0; mkThread (lock_wait key (n + m)) (t + d)])).
    { change (run ex [Run 1; Tick d; Run 1] ?c)
        with (step ex (step ex (step ex c (Run 1)) (Tick d)) (Run 1)).
      cbn [Nat.add lock_wait]. unfold call at 1.
      erewrite step_at; [| reflexivity | cbn; lia].
      cbn [exec_cmd N.eqb]. world_simpl. rewrite step_tick. world_simpl.
      cbn [insert list_insert]. unfold call at 1.
      erewrite step_at; [| reflexivity | cbn; lia].
      cbn [exec_cmd N.eqb]. world_simpl.
      rewrite (miss_stays_miss t d d0 key Hmiss). reflexivity. }
    rewrite Hround.
    change (t + d)%N with (now (mkWorld d0 (t + d) c0 r0 n0
                                 ((l0 ++ [(1, Sleep 100)]) ++ [(1, Get key)]))) at 2.
    rewrite IH by (cbn; by apply miss_stays_miss).
    cbn [now db calls results computations log].
    rewrite rounds_S, map_app, Nat2N.inj_succ. cbn [map app].
    rewrite <- !app_assoc. cbn [app].
    replace (t + d + d * N.of_nat n)%N with (t + d * N.succ (N.of_nat n))%N by lia.
    reflexivity.
Qed.

(** The same in strategy 5: every poll reads the result slot, finds
    nothing and sleeps 100 ms, and takes [d] milliseconds in all. *)
Lemma coalesce_wait_polls (ex : executor) (key : string) (t0 : thread) (m : nat) (d : N) :
  (100 <= d)%N ->
  forall (n : nat) (w : world) (wk : N),
  (wk <= now w)%N ->
  truthy (redis_get (now w) (db w) (result_key key)) = false ->
  exists wk' : N,
    (wk' <= now w + d * N.of_nat n)%N /\
    run ex (concat (replicate n [Run 1; Run 1; Tick d]))
      (w, [t0; mkThread (coalesce_wait key (n + m)) wk]) =
    (mkWorld (db w) (now w + d * N.of_nat n) (calls w) (results w) (computations w)
       (log w ++ map (pair 1) (rounds n [Get (result_key key); Sleep 100])),
     [t0; mkThread (coalesce_wait key m) wk']).
Proof.
  intros Hd. induction n as [|n IH]; intros w wk Hwk Hmiss.
  - exists wk. destruct w as [d0 t c0 r0 n0 l0].
    cbn [replicate concat run fold_left rounds map].
    cbn [now db calls results computations log Nat.add N.of_nat] in *.
    rewrite N.mul_0_r, N.add_0_r, app_nil_r. split; [lia | reflexivity].
  - cbn [replicate concat].
    destruct w as [d0 t c0 r0 n0 l0]. cbn [now db calls results computations log] in *.
    assert (Hround :
      run ex [Run 1; Run 1; Tick d]
        (mkWorld d0 t c0 r0 n0 l0, [t0; mkThread (coalesce_wait key (S n + m)) wk]) =
      (mkWorld d0 (t + d) c0 r0 n0
         ((l0 ++ [(1, Get (result_key key))]) ++ [(1, Sleep 100)]),
       [t0; mkThread (coalesce_wait key (n + m)) (t + 100)])).
    { change (run ex [Run 1; Run 1; Tick d] ?c)
        with (step ex (step ex (step ex c (Run 1)) (Run 1)) (Tick d)).
      cbn [Nat.add coalesce_wait]. unfold call at 1.
      erewrite step_at; [| reflexivity | cbn; lia].
      cbn [exec_cmd N.eqb]. world_simpl. rewrite Hmiss.
      cbn [insert list_insert]. unfold call at 1.
      erewrite step_at; [| reflexivity | cbn; lia].
      cbn [exec_cmd N.eqb]. world_simpl. rewrite step_tick. reflexivity. }
    destruct (IH (mkWorld d0 (t + d) c0 r0 n0
                    ((l0 ++ [(1, Get (result_key key))]) ++ [(1, Sleep 100)]))
                (t + 100)%N) as (wk' & Hwk' & Hrest).
    { cbn. lia. }
    { cbn. by apply miss_stays_miss. }
    exists wk'. cbn [now db calls results computations log] in *.
    split; [lia|].
    rewrite run_app, Hround, Hrest.
    rewrite rounds_S, map_app, Nat2N.inj_succ. cbn [map app].
    rewrite <- !app_assoc. cbn [app].
    replace (t + d + d * N.of_nat n)%N with (t + d * N.succ (N.of_nat n))%N by lia.
    reflexivity.
Qed.

(** Strategy 3 on the clock. The first client misses and takes the lock,
    then is never scheduled again; the second, started with it, misses, is
    refused the lock and polls, each poll taking [d] milliseconds (100 when
    it is served as soon as its sleep is over). Its call of the executor
    comes after the twenty polls, [20 * d] milliseconds after the start,
    without any other call in between; the lock it was refused, written
    for 10000 ms, is still in place then exactly when [20 * d] is at most
    10000. *)
Lemma lock_waiter_on_the_clock (ex : executor) (w : world) (key : string) (d : N) :
  truthy (redis_get (now w) (db w) key) = false ->
  redis_get (now w) (db w) (lock_key key) = PNone ->
  (100 <= d)%N ->
  let pool := [spawn (lock_client key) w; spawn (lock_client key) w] in
  let cfg := run ex ([Run 0; Run 0; Run 1; Run 1] ++
                     concat (replicate 20 [Run 1; Tick d; Run 1]) ++ [Run 1])
               (w, pool) in
  log (fst cfg) =
    log w ++ [(0, Get key); (0, SetNxEx (lock_key key) "locked" 10);
               (1, Get key); (1, SetNxEx (lock_key key) "locked" 10)] ++
             map (pair 1) (rounds 20 [Sleep 100; Get key]) ++ [(1, Compute key)] /\
  now (fst cfg) = (now w + 20 * d)%N /\
  db (fst cfg) = redis_setex (now w) (db w) (lock_key key) 10 "locked" /\
  redis_get (now (fst cfg)) (db (fst cfg)) (lock_key key) =
    (if (20 * d <=? 10000)%N then PStr "locked" else PNone) /\
  calls (fst cfg) = S (calls w) /\
  snd cfg !! 1 =
    Some (mkThread (match exec_reply ex key (now w + 20 * d)%N with
                    | Val _ => Ret
                    | Exn => Throw
                    end) (now w + 20 * d + exec_ms ex)%N).
Proof.
  intros Hmiss Hfree Hd pool cfg.
  destruct w as [d0 t c0 r0 n0 l0]. cbn [now db calls log] in *.
  pose proof (key_ne_lock key) as Hkl.
  assert (Hstart :
    run ex [Run 0; Run 0; Run 1; Run 1] (mkWorld d0 t c0 r0 n0 l0, pool) =
    (mkWorld (redis_setex t d0 (lock_key key) 10 "locked") t c0 r0 n0
       ((((l0 ++ [(0, Get key)]) ++ [(0, SetNxEx (lock_key key) "locked" 10)])
          ++ [(1, Get key)]) ++ [(1, SetNxEx (lock_key key) "locked" 10)]),
     [mkThread (try_finally
                  (result <- Compute key ;; SetEx key 10 result ;; Append result ;; Ret)
                  (Del (lock_key key))) t;
      mkThread (lock_wait key 20) t])).
  { subst pool.
    change (run ex [Run 0; Run 0; Run 1; Run 1] ?c)
      with (step ex (step ex (step ex (step ex c (Run 0)) (Run 0)) (Run 1)) (Run 1)).
    unfold spawn, lock_client, call at 1. cbn [now].
    erewrite step_at; [| reflexivity | cbn; lia].
    cbn [exec_cmd N.eqb]. world_simpl. rewrite Hmiss. unfold call at 1.
    cbn [insert list_insert].
    erewrite step_at; [| reflexivity | cbn; lia].
    rewrite exec_set_nx_free by exact Hfree. cbn [fst snd]. world_simpl.
    cbn [insert list_insert truthy]. unfold call at 3.
    erewrite step_at; [| reflexivity | cbn; lia].
    cbn [exec_cmd N.eqb]. world_simpl.
    rewrite redis_get_setex_ne by (intros Heq; symmetry in Heq; by apply Hkl in Heq).
    rewrite Hmiss. cbn [insert list_insert]. unfold call at 3.
    erewrite step_at; [| reflexivity | cbn; lia].
    cbn [exec_cmd N.eqb]. world_simpl.
    unfold redis_set_nx_ex. rewrite redis_get_setex.
    reflexivity. }
  assert (Hcfg : cfg =
    (mkWorld (redis_setex t d0 (lock_key key) 10 "locked") (t + 20 * d) (S c0) r0 n0
       ((((((l0 ++ [(0, Get key)]) ++ [(0, SetNxEx (lock_key key) "locked" 10)])
             ++ [(1, Get key)]) ++ [(1, SetNxEx (lock_key key) "locked" 10)])
           ++ map (pair 1) (rounds 20 [Sleep 100; Get key])) ++ [(1, Compute key)]),
     [mkThread (try_finally
                  (result <- Compute key ;; SetEx key 10 result ;; Append result ;; Ret)
                  (Del (lock_key key))) t;
      mkThread (match exec_reply ex key (t + 20 * d)%N with
                | Val _ => Ret
                | Exn => Throw
                end) (t + 20 * d + exec_ms ex)%N])).
  { subst cfg. rewrite !run_app, Hstart.
    match goal with
    | |- context [run ex (concat _) (?w4, _)] =>
        change t with (now w4) at 2;
        rewrite (lock_wait_polls ex key _ 0 d Hd 20 w4)
    end.
    2:{ cbn [now db].
        rewrite redis_get_setex_ne by (intros Heq; symmetry in Heq; by apply Hkl in Heq).
        exact Hmiss. }
    cbn [now db calls results computations log].
    change (run ex [Run 1] ?c) with (step ex c (Run 1)).
    cbn [lock_wait]. unfold call at 1.
    erewrite step_at; [| reflexivity | cbn; lia].
    cbn [exec_cmd N.eqb]. world_simpl. cbn [insert list_insert].
    change (N.of_nat 20) with 20%N.
    replace (t + d * 20)%N with (t + 20 * d)%N by lia.
    by destruct (exec_reply ex key (t + 20 * d)). }
  rewrite Hcfg. cbn [fst snd now db calls log]. repeat split.
  - rewrite <- !app_assoc. reflexivity.
  - unfold redis_get, redis_setex. rewrite lookup_insert_eq. unfold live. simpl.
    destruct (N.leb_spec (t + 20 * d) (t + 1000 * 10)),
             (N.leb_spec (20 * d) 10000); try done; lia.
Qed.

(** Strategy 5 on the clock. The first client misses, writes the marker
    and is never scheduled again; the second, started with it, misses,
    finds the marker and polls the result slot, each poll taking [d]
    milliseconds (100 when it is served as soon as the sleep before it is
    over). It returns after the thirty polls, [30 * d] milliseconds after
    the start, having called the executor never; the marker, written for
    5000 ms, is still in place then exactly when [30 * d] is at most
    5000. *)
Lemma coalesce_waiter_on_the_clock (ex : executor) (w : world) (key : string) (d : N) :
  truthy (redis_get (now w) (db w) key) = false ->
  truthy (redis_get (now w) (db w) (computing_key key)) = false ->
  truthy (redis_get (now w) (db w) (result_key key)) = false ->
  (100 <= d)%N ->
  let pool := [spawn (coalesce_client key) w; spawn (coalesce_client key) w] in
  let cfg := run ex ([Run 0; Run 0; Run 0; Run 1; Run 1] ++
                     concat (replicate 30 [Run 1; Run 1; Tick d]))
               (w, pool) in
  log (fst cfg) =
    log w ++ [(0, Get key); (0, Get (computing_key key));
               (0, SetEx (computing_key key) 5 (PStr "1"));
               (1, Get key); (1, Get (computing_key key))] ++
             map (pair 1) (rounds 30 [Get (result_key key); Sleep 100]) /\
  now (fst cfg) = (now w + 30 * d)%N /\
  db (fst cfg) = redis_setex (now w) (db w) (computing_key key) 5 "1" /\
  redis_get (now (fst cfg)) (db (fst cfg)) (computing_key key) =
    (if (30 * d <=? 5000)%N then PStr "1" else PNone) /\
  calls (fst cfg) = calls w /\
  exists t1, snd cfg !! 1 = Some t1 /\ finished_at (fst cfg) t1 = true /\ code t1 = Ret.
Proof.
  intros Hmiss Hfree Hres Hd pool cfg.
  destruct w as [d0 t c0 r0 n0 l0]. cbn [now db calls log] in *.
  pose proof (key_ne_computing key) as Hkc.
  pose proof (computing_ne_result key) as Hcr.
  assert (Hstart :
    run ex [Run 0; Run 0; Run 0; Run 1; Run 1] (mkWorld d0 t c0 r0 n0 l0, pool) =
    (mkWorld (redis_setex t d0 (computing_key key) 5 "1") t c0 r0 n0
       (((((l0 ++ [(0, Get key)]) ++ [(0, Get (computing_key key))])
            ++ [(0, SetEx (computing_key key) 5 (PStr "1"))])
           ++ [(1, Get key)]) ++ [(1, Get (computing_key key))]),
     [mkThread (result <- Get (result_key key) ;;
                if truthy result then SetEx key 10 result ;; Ret else
                result <- Compute key ;;
                SetEx (result_key key) 5 result ;;
                SetEx key 10 result ;;
                Del (computing_key key) ;;
                Incr ;;
                Ret) t;
      mkThread (coalesce_wait key 30) t])).
  { subst pool.
    change (run ex [Run 0; Run 0; Run 0; Run 1; Run 1] ?c)
      with (step ex (step ex (step ex (step ex (step ex c
              (Run 0)) (Run 0)) (Run 0)) (Run 1)) (Run 1)).
    unfold spawn, coalesce_client, call at 1. cbn [now].
    erewrite step_at; [| reflexivity | cbn; lia].
    cbn [exec_cmd N.eqb]. world_simpl. rewrite Hmiss. unfold call at 1.
    cbn [insert list_insert].
    erewrite step_at; [| reflexivity | cbn; lia].
    cbn [exec_cmd N.eqb]. world_simpl. rewrite Hfree. unfold call at 1.
    cbn [insert list_insert].
    erewrite step_at; [| reflexivity | cbn; lia].
    cbn [exec_cmd N.eqb]. world_simpl. cbn [insert list_insert]. unfold call at 9.
    erewrite step_at; [| reflexivity | cbn; lia].
    cbn [exec_cmd N.eqb]. world_simpl.
    rewrite redis_get_setex_ne by (intros Heq; symmetry in Heq; by apply Hkc in Heq).
    rewrite Hmiss. cbn [insert list_insert]. unfold call at 9.
    erewrite step_at; [| reflexivity | cbn; lia].
    cbn [exec_cmd N.eqb]. world_simpl. rewrite redis_get_setex.
    reflexivity. }
  assert (Hcfg : exists wk, (wk <= t + 30 * d)%N /\ cfg =
    (mkWorld (redis_setex t d0 (computing_key key) 5 "1") (t + 30 * d) c0 r0 n0
       ((((((l0 ++ [(0, Get key)]) ++ [(0, Get (computing_key key))])
             ++ [(0, SetEx (computing_key key) 5 (PStr "1"))])
            ++ [(1, Get key)]) ++ [(1, Get (computing_key key))])
          ++ map (pair 1) (rounds 30 [Get (result_key key); Sleep 100])),
     [mkThread (result <- Get (result_key key) ;;
                if truthy result then SetEx key 10 result ;; Ret else
                result <- Compute key ;;
                SetEx (result_key key) 5 result ;;
                SetEx key 10 result ;;
                Del (computing_key key) ;;
                Incr ;;
                Ret) t;
      mkThread Ret wk])).
  { subst cfg. rewrite !run_app, Hstart.
    match goal with
    | |- context [run ex (concat _) (?w5, [?t0; _])] =>
        destruct (coalesce_wait_polls ex key t0 0 d Hd 30 w5 t) as (wk & Hwk & Hrun)
    end.
    { cbn. lia. }
    { cbn [now db]. rewrite redis_get_setex_ne by exact Hcr. exact Hres. }
    exists wk. cbn [now db calls results computations log] in *.
    change (N.of_nat 30) with 30%N in *.
    change (30 + 0) with 30 in Hrun.
    split; [lia|]. rewrite Hrun. cbn [coalesce_wait].
    replace (t + d * 30)%N with (t + 30 * d)%N by lia.
    reflexivity. }
  destruct Hcfg as (wk & Hwk & Hcfg).
  rewrite Hcfg. cbn [fst snd now db calls log]. repeat split.
  - rewrite <- !app_assoc. reflexivity.
  - unfold redis_get, redis_setex. rewrite lookup_insert_eq. unfold live. simpl.
    destruct (N.leb_spec (t + 30 * d) (t + 1000 * 5)),
             (N.leb_spec (30 * d) 5000); try done; lia.
  - eexists. split; [reflexivity|]. split; [|reflexivity].
    unfold finished_at. cbn. apply N.leb_le. lia.
Qed.

(* ===================================================================== *)
(* The wait deadline                                                      *)
(* ===================================================================== *)

(** C3, as amended: a waiter of strategy 3 whose twenty polls all miss then
    calls the executor itself, with no second attempt at the lock and no
    write, and returns (or raises what the executor raised); a waiter of
    strategy 5 whose thirty polls all miss returns without calling the
    executor. Neither makes a further call, whatever the replies, and the
    sleep the polls have asked for is 2000 ms for the first and 3000 ms for
    the second. The waiter counts polls and reads no clock. With polls
    that take [d] milliseconds each (100 when each is served as soon as
    its sleep is over, more when the schedule or Redis delays it), the
    first calls the executor [20 * d] ms after its start and the second
    returns [30 * d] ms after its start: with no delay that is 2000 ms,
    the lock it was refused (written for 10000 ms) still in place, and
    3000 ms, the marker it found (written for 5000 ms) still in place;
    with delay it is later, after the expiry once [20 * d] exceeds 10000
    or [30 * d] exceeds 5000. *)
Theorem waiter_deadline (ex : executor) (w : world) (key : string)
    (c a m : pyval) (vs ws : list pyval) (r : reply) (d3 d5 : N) :
  truthy c = false -> truthy a = false -> truthy m = true ->
  Forall (fun v => truthy v = false) vs -> length vs = 20 ->
  Forall (fun v => truthy v = false) ws -> length ws = 30 ->
  truthy (redis_get (now w) (db w) key) = false ->
  redis_get (now w) (db w) (lock_key key) = PNone ->
  truthy (redis_get (now w) (db w) (computing_key key)) = false ->
  truthy (redis_get (now w) (db w) (result_key key)) = false ->
  (100 <= d3)%N -> (100 <= d5)%N ->
  (let lock_run := feed (lock_client key) (Val c :: Val a :: sleep_then_see vs ++ [r]) in
   let coalesce_run := feed (coalesce_client key) (Val c :: Val m :: see_then_sleep ws) in
   fst lock_run =
     Get key :: SetNxEx (lock_key key) "locked" 10 ::
     rounds 20 [Sleep 100; Get key] ++ [Compute key] /\
   snd lock_run = match r with Val _ => Ret | Exn => Throw end /\
   slept (fst lock_run) = 2000%N /\
   fst coalesce_run =
     Get key :: Get (computing_key key) ::
     rounds 30 [Get (result_key key); Sleep 100] /\
   snd coalesce_run = Ret /\
   slept (fst coalesce_run) = 3000%N) /\
  (let pool := [spawn (lock_client key) w; spawn (lock_client key) w] in
   let cfg := run ex ([Run 0; Run 0; Run 1; Run 1] ++
                      concat (replicate 20 [Run 1; Tick d3; Run 1]) ++ [Run 1])
                (w, pool) in
   log (fst cfg) =
     log w ++ [(0, Get key); (0, SetNxEx (lock_key key) "locked" 10);
                (1, Get key); (1, SetNxEx (lock_key key) "locked" 10)] ++
              map (pair 1) (rounds 20 [Sleep 100; Get key]) ++ [(1, Compute key)] /\
   now (fst cfg) = (now w + 20 * d3)%N /\
   db (fst cfg) = redis_setex (now w) (db w) (lock_key key) 10 "locked" /\
   redis_get (now (fst cfg)) (db (fst cfg)) (lock_key key) =
     (if (20 * d3 <=? 10000)%N then PStr "locked" else PNone) /\
   calls (fst cfg) = S (calls w) /\
   snd cfg !! 1 =
     Some (mkThread (match exec_reply ex key (now w + 20 * d3)%N with
                     | Val _ => Ret
                     | Exn => Throw
                     end) (now w + 20 * d3 + exec_ms ex)%N)) /\
  (let pool := [spawn (coalesce_client key) w; spawn (coalesce_client key) w] in
   let cfg := run ex ([Run 0; Run 0; Run 0; Run 1; Run 1] ++
                      concat (replicate 30 [Run 1; Run 1; Tick d5]))
                (w, pool) in
   log (fst cfg) =
     log w ++ [(0, Get key); (0, Get (computing_key key));
                (0, SetEx (computing_key key) 5 (PStr "1"));
                (1, Get key); (1, Get (computing_key key))] ++
              map (pair 1) (rounds 30 [Get (result_key key); Sleep 100]) /\
   now (fst cfg) = (now w + 30 * d5)%N /\
   db (fst cfg) = redis_setex (now w) (db w) (computing_key key) 5 "1" /\
   redis_get (now (fst cfg)) (db (fst cfg)) (computing_key key) =
     (if (30 * d5 <=? 5000)%N then PStr "1" else PNone) /\
   calls (fst cfg) = calls w /\
   exists t1, snd cfg !! 1 = Some t1 /\ finished_at (fst cfg) t1 = true /\ code t1 = Ret).
Proof.
  intros Hc Ha Hm Hvs Hlen Hws Hlen' Hmiss Hlock Hmark Hres Hd3 Hd5.
  split; [|split].
  - intros lock_run coalesce_run.
    assert (Hlockrun : lock_run =
      (Get key :: SetNxEx (lock_key key) "locked" 10 ::
         rounds 20 [Sleep 100; Get key] ++ [Compute key],
       match r with Val _ => Ret | Exn => Throw end)).
    { subst lock_run. rewrite lock_client_waiter by done.
      pose proof (lock_wait_miss key vs 0 [r] Hvs) as Hw.
      rewrite Hlen in Hw. change (20 + 0) with 20 in Hw. rewrite Hw.
      cbn [lock_wait call feed fst snd]. by destruct r. }
    assert (Hco : coalesce_run =
      (Get key :: Get (computing_key key) ::
         rounds 30 [Get (result_key key); Sleep 100], Ret)).
    { subst coalesce_run. rewrite coalesce_client_waiter_feed by done.
      pose proof (coalesce_wait_miss key ws 0 [] Hws) as Hw.
      rewrite Hlen', app_nil_r in Hw. change (30 + 0) with 30 in Hw. rewrite Hw.
      cbn [coalesce_wait feed fst snd]. by rewrite app_nil_r. }
    rewrite Hlockrun, Hco. cbn [fst snd].
    repeat split; reflexivity.
  - by apply lock_waiter_on_the_clock.
  - by apply coalesce_waiter_on_the_clock.
Qed.

Lemma waiter_deadline_witness :
  (let lock_run := feed (lock_client "k")
     (Val PNone :: Val PNone :: sleep_then_see (replicate 20 PNone) ++ [Val (PStr "v")]) in
   let coalesce_run := feed (coalesce_client "k")
     (Val PNone :: Val (PStr "1") :: see_then_sleep (replicate 30 PNone)) in
   fst lock_run =
     Get "k" :: SetNxEx (lock_key "k") "locked" 10 ::
     rounds 20 [Sleep 100; Get "k"] ++ [Compute "k"] /\
   snd lock_run = Ret /\
   slept (fst lock_run) = 2000%N /\
   fst coalesce_run =
     Get "k" :: Get (computing_key "k") :: rounds 30 [Get (result_key "k"); Sleep 100] /\
   snd coalesce_run = Ret /\
   slept (fst coalesce_run) = 3000%N) /\
  (let pool := [spawn (lock_client "k") boot; spawn (lock_client "k") boot] in
   let cfg := run expensive_computation
                ([Run 0; Run 0; Run 1; Run 1] ++
                 concat (replicate 20 [Run 1; Tick 100; Run 1]) ++ [Run 1])
                (boot, pool) in
   log (fst cfg) =
     log boot ++ [(0, Get "k"); (0, SetNxEx (lock_key "k") "locked" 10);
                   (1, Get "k"); (1, SetNxEx (lock_key "k") "locked" 10)] ++
                 map (pair 1) (rounds 20 [Sleep 100; Get "k"]) ++ [(1, Compute "k")] /\
   now (fst cfg) = (now boot + 20 * 100)%N /\
   db (fst cfg) = redis_setex (now boot) (db boot) (lock_key "k") 10 "locked" /\
   redis_get (now (fst cfg)) (db (fst cfg)) (lock_key "k") =
     (if (20 * 100 <=? 10000)%N then PStr "locked" else PNone) /\
   calls (fst cfg) = S (calls boot) /\
   snd cfg !! 1 =
     Some (mkThread (match exec_reply expensive_computation "k" (now boot + 20 * 100)%N with
                     | Val _ => Ret
                     | Exn => Throw
                     end) (now boot + 20 * 100 + exec_ms expensive_computation)%N)) /\
  (let pool := [spawn (coalesce_client "k") boot; spawn (coalesce_client "k") boot] in
   let cfg := run expensive_computation
                ([Run 0; Run 0; Run 0; Run 1; Run 1] ++
                 concat (replicate 30 [Run 1; Run 1; Tick 100]))
                (boot, pool) in
   log (fst cfg) =
     log boot ++ [(0, Get "k"); (0, Get (computing_key "k"));
                   (0, SetEx (computing_key "k") 5 (PStr "1"));
                   (1, Get "k"); (1, Get (computing_key "k"))] ++
                 map (pair 1) (rounds 30 [Get (result_key "k"); Sleep 100]) /\
   now (fst cfg) = (now boot + 30 * 100)%N /\
   db (fst cfg) = redis_setex (now boot) (db boot) (computing_key "k") 5 "1" /\
   redis_get (now (fst cfg)) (db (fst cfg)) (computing_key "k") =
     (if (30 * 100 <=? 5000)%N then PStr "1" else PNone) /\
   calls (fst cfg) = calls boot /\
   exists t1, snd cfg !! 1 = Some t1 /\ finished_at (fst cfg) t1 = true /\ code t1 = Ret).
Proof.
  apply (waiter_deadline expensive_computation boot "k" PNone PNone (PStr "1")
           (replicate 20 PNone) (replicate 30 PNone) (Val (PStr "v")) 100%N 100%N).
  - reflexivity.
  - reflexivity.
  - reflexivity.
  - repeat constructor.
  - reflexivity.
  - repeat constructor.
  - reflexivity.
  - reflexivity.
  - reflexivity.
  - reflexivity.
  - reflexivity.
  - simpl. lia.
  - simpl. lia.
Defined.

(** C3 as stated fails: with the lock still held by a client that died
    holding it, the waiter of strategy 3 calls the executor after its twenty
    polls without asking for the lock again; and the waiter of strategy 5
    returns after its thirty polls without calling the executor at all, the
    key still missing. *)
Lemma waiter_deadline_no_second_attempt :
  let cfg3 := run expensive_computation
    ([Run 0; Run 0; Run 1; Run 1] ++ concat (replicate 20 [Run 1; Tick 100; Run 1]) ++ [Run 1])
    (lock_cache_concurrent "k" 2 boot) in
  let cfg5 := run expensive_computation
    ([Run 0; Run 0; Run 0; Run 1; Run 1] ++ concat (replicate 30 [Run 1; Run 1; Tick 100])
       ++ [Run 1])
    (request_coalescing_concurrent "k" 2 boot) in
  calls_of 1 (fst cfg3) =
    Get "k" :: SetNxEx "k:lock" "locked" 10 :: rounds 20 [Sleep 100; Get "k"] ++ [Compute "k"] /\
  redis_get (now (fst cfg3)) (db (fst cfg3)) "k:lock" = PStr "locked" /\
  calls (fst cfg3) = 1 /\
  calls_of 1 (fst cfg5) =
    Get "k" :: Get "k:computing" :: rounds 30 [Get "k:result"; Sleep 100] /\
  map returned (snd cfg5) = [false; true] /\
  calls (fst cfg5) = 0 /\
  redis_get (now (fst cfg5)) (db (fst cfg5)) "k" = PNone.
Proof. vm_compute. repeat split; reflexivity. Qed.

(* ===================================================================== *)
(* What a waiter polls                                                    *)
(* ===================================================================== *)

(** C5, as amended: a waiter of strategy 3 polls the key only, sleeping
    100 ms before each read, at most twenty times, and returns at the first
    read that finds a value; a waiter of strategy 5 polls the result slot
    only, sleeping 100 ms after each read that finds nothing, at most thirty
    times, and at the first read that finds a value writes it under the key
    for ten seconds and returns. *)
Theorem waiter_polls_one_place (key : string) (vs ws : list pyval) (v : pyval) (r : reply) :
  Forall (fun x => truthy x = false) vs -> length vs < 20 ->
  Forall (fun x => truthy x = false) ws -> length ws < 30 ->
  truthy v = true ->
  feed (lock_wait key 20) (sleep_then_see vs ++ [Val PNone; Val v]) =
    (rounds (length vs) [Sleep 100; Get key] ++ [Sleep 100; Get key], Ret) /\
  feed (coalesce_wait key 30) (see_then_sleep ws ++ [Val v; r]) =
    (rounds (length ws) [Get (result_key key); Sleep 100]
       ++ [Get (result_key key); SetEx key 10 v],
     match r with Val _ => Ret | Exn => Throw end).
Proof.
  intros Hvs Hlen Hws Hlen' Hv. split.
  - pose proof (lock_wait_miss key vs (20 - length vs) [Val PNone; Val v] Hvs) as Hw.
    replace (length vs + (20 - length vs)) with 20 in Hw by lia.
    rewrite Hw. destruct (20 - length vs) as [|n] eqn:Hn; [lia|].
    cbn [lock_wait]. rewrite !feed_call, Hv. reflexivity.
  - pose proof (coalesce_wait_miss key ws (30 - length ws) [Val v; r] Hws) as Hw.
    replace (length ws + (30 - length ws)) with 30 in Hw by lia.
    rewrite Hw. destruct (30 - length ws) as [|n] eqn:Hn; [lia|].
    cbn [coalesce_wait]. rewrite feed_call, Hv. unfold call. cbn [feed fst snd].
    by destruct r.
Qed.

Lemma waiter_polls_one_place_witness :
  feed (lock_wait "k" 20) (sleep_then_see [PNone; PNone] ++ [Val PNone; Val (PStr "v")]) =
    (rounds 2 [Sleep 100; Get "k"] ++ [Sleep 100; Get "k"], Ret) /\
  feed (coalesce_wait "k" 30)
       (see_then_sleep [PNone; PNone] ++ [Val (PStr "v"); Val (PBool true)]) =
    (rounds 2 [Get "k:result"; Sleep 100] ++ [Get "k:result"; SetEx "k" 10 (PStr "v")],
     Ret).
Proof.
  apply (waiter_polls_one_place "k" [PNone; PNone] [PNone; PNone] (PStr "v")
           (Val (PBool true))).
  - by repeat constructor.
  - simpl. lia.
  - by repeat constructor.
  - simpl. lia.
  - reflexivity.
Defined.

(** C5 as stated fails. Strategy 3 does not clear the result slot of an
    earlier run of strategy 5: with a value live in it during all twenty
    polls, the waiter never reads it and calls the executor in the end.
    And a waiter of strategy 5 that is held up for seven seconds after it saw
    the marker polls the result slot thirty times while the value sits under
    the key itself, and returns without it. *)
Lemma waiter_ignores_other_place :
  let w3 := set_db (fun d => redis_setex 0 d "k:result" 5 "v") boot in
  let cfg3 := run expensive_computation
    ([Run 0; Run 0; Run 1; Run 1] ++ concat (replicate 20 [Run 1; Tick 100; Run 1]) ++ [Run 1])
    (lock_cache_concurrent "k" 2 w3) in
  let polling5 := run expensive_computation
    [Run 0; Run 0; Run 0; Run 1; Run 1; Run 0; Run 0; Tick 2000;
     Run 0; Run 0; Run 0; Run 0; Tick 5001]
    (request_coalescing_concurrent "k" 2 boot) in
  let cfg5 := run expensive_computation
    (concat (replicate 30 [Run 1; Run 1; Tick 100]) ++ [Run 1]) polling5 in
  redis_get (now (fst cfg3)) (db (fst cfg3)) "k:result" = PStr "v" /\
  calls_of 1 (fst cfg3) =
    Get "k" :: SetNxEx "k:lock" "locked" 10 :: rounds 20 [Sleep 100; Get "k"] ++ [Compute "k"] /\
  redis_get (now (fst polling5)) (db (fst polling5)) "k" = PStr "data_k_2000" /\
  redis_get (now (fst cfg5)) (db (fst cfg5)) "k" = PStr "data_k_2000" /\
  calls_of 1 (fst cfg5) =
    Get "k" :: Get "k:computing" :: rounds 30 [Get "k:result"; Sleep 100] /\
  map returned (snd cfg5) = [true; true].
Proof. vm_compute. repeat split; reflexivity. Qed.

(* ===================================================================== *)
(* What a filler does with the value                                      *)
(* ===================================================================== *)

(** C7, as amended: when the executor returns a value, the filler of
    strategy 5 writes it to the result slot for five seconds, then under
    the key for ten seconds, then deletes its marker, counts the
    computation and returns; the filler of strategy 3, which has no result
    slot, writes it under the key for ten seconds, records it, then deletes
    the lock and returns. *)
Theorem filler_commit_order (key : string) (c m acq r v a0 a1 a2 a3 a4 : pyval) :
  truthy c = false -> truthy m = false -> truthy r = false -> truthy acq = true ->
  feed (coalesce_client key)
       [Val c; Val m; Val a0; Val r; Val v; Val a1; Val a2; Val a3; Val a4] =
    ([Get key; Get (computing_key key); SetEx (computing_key key) 5 (PStr "1");
      Get (result_key key); Compute key;
      SetEx (result_key key) 5 v; SetEx key 10 v; Del (computing_key key); Incr],
     Ret) /\
  feed (lock_client key) [Val c; Val acq; Val v; Val a1; Val a2; Val a3] =
    ([Get key; SetNxEx (lock_key key) "locked" 10; Compute key;
      SetEx key 10 v; Append v; Del (lock_key key)],
     Ret).
Proof.
  intros Hc Hm Hr Hacq. split.
  - unfold coalesce_client.
    rewrite feed_call, Hc, feed_call, Hm, !feed_call, Hr, !feed_call. reflexivity.
  - unfold lock_client. rewrite feed_call, Hc, feed_call, Hacq. reflexivity.
Qed.

Lemma filler_commit_order_witness :
  feed (coalesce_client "k")
       [Val PNone; Val PNone; Val (PBool true); Val PNone; Val (PStr "v");
        Val (PBool true); Val (PBool true); Val (PInt 1); Val PNone] =
    ([Get "k"; Get "k:computing"; SetEx "k:computing" 5 (PStr "1");
      Get "k:result"; Compute "k";
      SetEx "k:result" 5 (PStr "v"); SetEx "k" 10 (PStr "v"); Del "k:computing"; Incr],
     Ret) /\
  feed (lock_client "k")
       [Val PNone; Val (PBool true); Val (PStr "v"); Val (PBool true); Val PNone; Val (PInt 1)] =
    ([Get "k"; SetNxEx "k:lock" "locked" 10; Compute "k";
      SetEx "k" 10 (PStr "v"); Append (PStr "v"); Del "k:lock"],
     Ret).
Proof.
  apply (filler_commit_order "k" PNone PNone (PBool true) PNone (PStr "v")
           (PBool true) (PBool true) (PBool true) (PInt 1) PNone).
  - reflexivity.
  - reflexivity.
  - reflexivity.
  - reflexivity.
Defined.

(** C7 as stated fails for strategy 3: its filler runs to the end without
    ever writing a result slot. *)
Lemma lock_filler_writes_no_result_slot :
  let cfg := run expensive_computation
    [Run 0; Run 0; Run 0; Tick 2000; Run 0; Run 0; Run 0]
    (lock_cache_concurrent "k" 1 boot) in
  map returned (snd cfg) = [true] /\
  calls_of 0 (fst cfg) =
    [Get "k"; SetNxEx "k:lock" "locked" 10; Compute "k";
     SetEx "k" 10 (PStr "data_k_2000"); Append (PStr "data_k_2000"); Del "k:lock"] /\
  db (fst cfg) !! "k:result" = None /\
  redis_get (now (fst cfg)) (db (fst cfg)) "k" = PStr "data_k_2000".
Proof. vm_compute. repeat split; reflexivity. Qed.

(* ===================================================================== *)
(* Runs in which the strategies miss their aim                            *)
(* ===================================================================== *)

(** C1 on the code: the five clients of strategy 5, started on a cold
    cache and scheduled in turn, all read the marker before any of them
    writes it (reading it and writing it are two calls), so every one of
    them writes it, finds no result, and calls the executor: five
    invocations, none of the clients a waiter. *)
Theorem coalescing_all_clients_compute :
  let cfg := run expensive_computation
    (round_robin 5 5 ++ [Tick 2000] ++ round_robin 5 4)
    (request_coalescing_concurrent "k" 5 boot) in
  calls (fst cfg) = 5 /\
  computations (fst cfg) = 5 /\
  map returned (snd cfg) = [true; true; true; true; true] /\
  map (fun i => calls_of i (fst cfg)) (seq 0 5) =
    replicate 5
      [Get "k"; Get "k:computing"; SetEx "k:computing" 5 (PStr "1");
       Get "k:result"; Compute "k";
       SetEx "k:result" 5 (PStr "data_k_2000"); SetEx "k" 10 (PStr "data_k_2000");
       Del "k:computing"; Incr].
Proof. vm_compute. repeat split; reflexivity. Qed.

(** C4 on the code: strategy 4 has one expiry only and no lock. A client
    that reads the key before that expiry returns and starts no refresh;
    the five clients the strategy starts, after the key has expired, all
    miss, all call the executor and wait for it, and all write. *)
Theorem early_expiration_all_clients_compute :
  let start := early_expiration_concurrent "k" 5 boot in
  let fresh := set_db (fun d => redis_setex 0 d "k" 2 "initial_value") boot in
  let before := run expensive_computation [Run 0; Run 0]
    (clients 1 (early_client "k") (advance 1500 fresh)) in
  let cfg := run expensive_computation
    (round_robin 5 2 ++ [Tick 2000] ++ round_robin 5 2) start in
  calls_of 0 (fst before) = [Get "k"] /\
  calls (fst before) = 0 /\
  map returned (snd before) = [true] /\
  now (fst start) = 2500%N /\
  redis_get (now (fst start)) (db (fst start)) "k" = PNone /\
  calls (fst cfg) = 5 /\
  length (results (fst cfg)) = 5 /\
  map returned (snd cfg) = [true; true; true; true; true] /\
  map (fun i => calls_of i (fst cfg)) (seq 0 5) =
    replicate 5
      [Get "k"; Compute "k"; SetEx "k" 5 (PStr "data_k_4500"); Append (PStr "data_k_4500")].
Proof. vm_compute. repeat split; reflexivity. Qed.

(** C6 on the code: a client of strategy 3 that missed before the first
    filler committed, and asks for the lock after that filler released it,
    is granted it and calls the executor although the key now holds a
    value: it does not read the key again. A client of strategy 5 in the
    same position does read the result slot again and takes the value from
    it without computing, but returns with its marker still set. *)
Theorem granted_without_recheck :
  let cfg3 := run expensive_computation
    [Run 0; Run 1; Run 1; Run 1; Tick 2000; Run 1; Run 1; Run 1; Run 0; Run 0]
    (lock_cache_concurrent "k" 2 boot) in
  let cfg5 := run expensive_computation
    [Run 0; Run 0; Run 1; Run 1; Run 1; Run 1; Run 1; Tick 2000;
     Run 1; Run 1; Run 1; Run 1; Run 0; Run 0; Run 0; Run 0]
    (request_coalescing_concurrent "k" 2 boot) in
  redis_get (now (fst cfg3)) (db (fst cfg3)) "k" = PStr "data_k_2000" /\
  calls_of 0 (fst cfg3) = [Get "k"; SetNxEx "k:lock" "locked" 10; Compute "k"] /\
  calls (fst cfg3) = 2 /\
  calls_of 0 (fst cfg5) =
    [Get "k"; Get "k:computing"; SetEx "k:computing" 5 (PStr "1");
     Get "k:result"; SetEx "k" 10 (PStr "data_k_2000")] /\
  map returned (snd cfg5) = [true; true] /\
  calls (fst cfg5) = 1 /\
  redis_get (now (fst cfg5)) (db (fst cfg5)) "k:computing" = PStr "1".
Proof. vm_compute. repeat split; reflexivity. Qed.

(* ===================================================================== *)
(* The lock of strategy 3 is exclusive while it lives                     *)
(* ===================================================================== *)

(** [SET NX] on a key that reads as present changes nothing and answers
    [None]. *)
Lemma set_nx_denied (t : N) (d : gmap string entry) (k v v' : string) (s : N) :
  redis_get t d k = PStr v' ->
  redis_set_nx_ex t d k v s = (d, PNone).
Proof. intros Hk. unfold redis_set_nx_ex. by rewrite Hk. Qed.

(** Once [SET NX EX] has been granted at [t], every [SET NX] on the same
    key up to the expiry is refused, as long as nobody deletes the key. *)
Lemma set_nx_exclusive (t t' : N) (d : gmap string entry) (k v v' : string) (s s' : N) :
  redis_get t d k = PNone ->
  (t <= t')%N -> (t' <= t + 1000 * s)%N ->
  let granted := redis_set_nx_ex t d k v s in
  snd granted = PBool true /\
  redis_set_nx_ex t' (fst granted) k v' s' = (fst granted, PNone).
Proof.
  intros Hfree Hle Hlt granted.
  assert (Hg : granted = (redis_setex t d k s v, PBool true)).
  { subst granted. unfold redis_set_nx_ex. by rewrite Hfree. }
  rewrite Hg. cbn [fst snd]. split; [done|].
  apply (set_nx_denied _ _ _ _ v).
  unfold redis_get, redis_setex. rewrite lookup_insert_eq. unfold live. simpl.
  destruct (N.leb_spec t' (t + 1000 * s)); [done | lia].
Qed.

(* ===================================================================== *)
(* A thread in a pool behaves as its body fed with some replies           *)
(* ===================================================================== *)

Lemma exec_cmd_log (ex : executor) (i : nat) (c : cmd) (w : world) :
  log (fst (fst (exec_cmd ex i c w))) = log w ++ [(i, c)].
Proof.
  destruct c as [k|k s v|k v s|k|ms|key|v|]; try reflexivity.
  - unfold exec_cmd. by destruct v, (s =? 0)%N.
  - unfold exec_cmd. destruct (s =? 0)%N; [done|].
    by destruct (redis_set_nx_ex _ _ _ _ _).
Qed.

Lemma calls_of_snoc (i j : nat) (c : cmd) (l : list (nat * cmd)) :
  map snd (filter (fun e => bool_decide (fst e = i)) (l ++ [(j, c)])) =
  map snd (filter (fun e => bool_decide (fst e = i)) l) ++ (if decide (j = i) then [c] else []).
Proof.
  rewrite filter_app, map_app. f_equal.
  rewrite filter_cons. simpl. destruct (decide (j = i)) as [->|Hne].
  - by rewrite bool_decide_eq_true_2.
  - by rewrite bool_decide_eq_false_2.
Qed.

(** Whatever the schedule and the other threads, the calls thread [i]
    makes during a run are those its body makes when fed some list of
    replies, and what is left of it is what [feed] leaves. *)
Lemma run_thread_feed (ex : executor) (sch : list event) :
  forall (w : world) (ts : list thread) (i : nat) (t : thread),
  ts !! i = Some t ->
  exists (rs : list reply) (t' : thread),
    snd (run ex sch (w, ts)) !! i = Some t' /\
    code t' = snd (feed (code t) rs) /\
    calls_of i (fst (run ex sch (w, ts))) = calls_of i w ++ fst (feed (code t) rs).
Proof.
  induction sch as [|e sch IH]; intros w ts i t Hi.
  - exists [], t. simpl. rewrite feed_nil. simpl. by rewrite app_nil_r.
  - change (run ex (e :: sch) (w, ts)) with (run ex sch (step ex (w, ts) e)).
    destruct e as [j|ms].
    + unfold step. destruct (ts !! j) as [tj|] eqn:Hj; [|by apply IH].
      unfold step_thread.
      destruct (now w <? wake tj)%N.
      { rewrite list_insert_id by done. by apply IH. }
      destruct (code tj) as [| |c k] eqn:Hcode;
        try (rewrite list_insert_id by done; by apply IH).
      destruct (exec_cmd ex j c w) as [[w' r] wk] eqn:Hexec.
      assert (Hlog : log w' = log w ++ [(j, c)]).
      { pose proof (exec_cmd_log ex j c w) as H. by rewrite Hexec in H. }
      assert (Hcalls : calls_of i w' = calls_of i w ++ (if decide (j = i) then [c] else [])).
      { unfold calls_of. rewrite Hlog. apply calls_of_snoc. }
      destruct (decide (j = i)) as [->|Hne].
      * assert (tj = t) as -> by congruence.
        destruct (IH w' (<[i := mkThread (k r) wk]> ts) i (mkThread (k r) wk))
          as (rs & t' & Ht' & Hc & Hl).
        { apply list_lookup_insert_eq. by eapply lookup_lt_Some. }
        exists (r :: rs), t'. split; [done|].
        rewrite Hcode. cbn [feed]. cbn [code] in Hc, Hl.
        destruct (feed (k r) rs) as [cs q]. cbn [fst snd] in *.
        split; [done|]. rewrite Hl, Hcalls, <- app_assoc. reflexivity.
      * destruct (IH w' (<[j := mkThread (k r) wk]> ts) i t) as (rs & t' & Ht' & Hc & Hl).
        { by rewrite list_lookup_insert_ne. }
        exists rs, t'. split; [done|]. split; [done|].
        by rewrite Hl, Hcalls, app_nil_r.
    + rewrite step_tick.
      destruct (IH (advance ms w) ts i t Hi) as (rs & t' & Ht' & Hc & Hl).
      exists rs, t'. split; [done|]. split; [done|]. exact Hl.
Qed.

(* ===================================================================== *)
(* The keys a strategy touches, and for how long                          *)
(* ===================================================================== *)

Lemma confined_call (ks : list string) (c : cmd) (k : pyval -> prog) :
  cmd_within ks c -> (forall v, confined ks (k v)) -> confined ks (call c k).
Proof.
  intros Hc Hk. unfold call. constructor; [done|].
  intros [v|]; [apply Hk | constructor].
Qed.

Lemma confined_try_finally (ks : list string) (p : prog) (c : cmd) :
  confined ks p -> cmd_within ks c -> confined ks (try_finally p c).
Proof.
  intros Hp Hc. induction Hp as [| |c' k Hc' _ IH]; simpl.
  - apply confined_call; [done|]. intros _. constructor.
  - apply confined_call; [done|]. intros _. constructor.
  - constructor; [done|]. apply IH.
Qed.

#[local] Ltac confine :=
  repeat first
    [ apply confined_ret | apply confined_throw
    | apply confined_try_finally
    | apply confined_call; [| intros ?]
    | match goal with |- confined _ (if ?b then _ else _) => destruct b end
    | progress (simpl; rewrite ?elem_of_cons; auto with lia) ].

Lemma confined_no_cache_client (key : string) : confined [] (no_cache_client key).
Proof. unfold no_cache_client. confine. Qed.

Lemma confined_naive_client (key : string) : confined [key] (naive_client key).
Proof. unfold naive_client. confine. Qed.

Lemma confined_early_client (key : string) : confined [key] (early_client key).
Proof. unfold early_client. confine. Qed.

Lemma confined_lock_wait (key : string) (n : nat) :
  confined [key; lock_key key] (lock_wait key n).
Proof. induction n as [|n IH]; simpl; confine. Qed.

Lemma confined_lock_client (key : string) :
  confined [key; lock_key key] (lock_client key).
Proof. unfold lock_client. confine; apply confined_lock_wait. Qed.

Lemma confined_coalesce_wait (key : string) (n : nat) :
  confined [key; computing_key key; result_key key] (coalesce_wait key n).
Proof. induction n as [|n IH]; simpl; confine. Qed.

Lemma confined_coalesce_client (key : string) :
  confined [key; computing_key key; result_key key] (coalesce_client key).
Proof. unfold coalesce_client. confine; apply confined_coalesce_wait. Qed.

Lemma kept_refl (ks : list string) (w : world) : kept ks w w.
Proof. repeat split; [lia | auto..]. Qed.

Lemma kept_setex (ks : list string) (w0 w : world) (k : string) (s : N) (v : string) :
  k ∈ ks -> (s <= 10)%N -> kept ks w0 w ->
  kept ks w0 (set_db (fun d => redis_setex (now w) d k s v) w).
Proof.
  intros Hk Hs (Hnow & Hout & Hin). repeat split; cbn [set_db now db].
  - done.
  - intros k' Hk'. unfold redis_setex. rewrite lookup_insert_ne; [auto|].
    intros ->. done.
  - intros k' e. unfold redis_setex. rewrite lookup_insert_Some.
    intros [[_ <-]|[_ He]]; [|auto].
    right. eexists. split; [reflexivity|]. lia.
Qed.

Lemma exec_cmd_kept (ex : executor) (ks : list string) (i : nat) (c : cmd) (w0 w : world) :
  cmd_within ks c -> kept ks w0 w -> kept ks w0 (fst (fst (exec_cmd ex i c w))).
Proof.
  intros Hc Hw.
  assert (Hl : kept ks w0 (logged i c w)) by exact Hw.
  destruct c as [k|k s v|k v s|k|ms|key|v|]; cbn [exec_cmd fst]; try exact Hl.
  - destruct Hc as [Hk Hs].
    destruct v, (s =? 0)%N; try exact Hl; by apply (kept_setex ks w0 (logged _ _ w)).
  - destruct Hc as [Hk Hs]. destruct (s =? 0)%N; [exact Hl|]. unfold redis_set_nx_ex.
    destruct (redis_get _ _ _); try exact Hl.
    by apply (kept_setex ks w0 (logged _ _ w)).
  - destruct Hw as (Hnow & Hout & Hin). repeat split; cbn [set_db logged now db].
    + done.
    + intros k' Hk'. unfold redis_delete. rewrite lookup_delete_ne; [auto|].
      intros ->. done.
    + intros k' e. unfold redis_delete. rewrite lookup_delete_Some. intros [_ He]. auto.
Qed.

Lemma advance_kept (ks : list string) (ms : N) (w0 w : world) :
  kept ks w0 w -> kept ks w0 (advance ms w).
Proof.
  intros (Hnow & Hout & Hin). repeat split; cbn [advance now db].
  - lia.
  - done.
  - intros k e He. destruct (Hin k e He) as [|(t & Ht & Hle)]; [auto|].
    right. exists t. split; [done | lia].
Qed.

(** Threads whose bodies are confined to [ks], however scheduled, leave
    the server [kept]. *)
Lemma run_confined (ex : executor) (ks : list string) (w0 : world) (sch : list event) :
  forall (w : world) (ts : list thread),
  Forall (fun t => confined ks (code t)) ts ->
  kept ks w0 w ->
  kept ks w0 (fst (run ex sch (w, ts))).
Proof.
  induction sch as [|e sch IH]; intros w ts Hts Hw; [done|].
  change (run ex (e :: sch) (w, ts)) with (run ex sch (step ex (w, ts) e)).
  destruct e as [j|ms].
  - unfold step. destruct (ts !! j) as [tj|] eqn:Hj; [|by apply IH].
    unfold step_thread. destruct (now w <? wake tj)%N.
    { rewrite list_insert_id by done. by apply IH. }
    pose proof (proj1 (Forall_lookup _ _) Hts j tj Hj) as Hc.
    destruct (code tj) as [| |c k] eqn:Hcode;
      try (rewrite list_insert_id by done; by apply IH).
    simpl in Hc. rewrite Hcode in Hc. inversion Hc as [| |c' k' Hcmd Hk]; subst.
    pose proof (exec_cmd_kept ex ks j c w0 w Hcmd Hw) as Hw'.
    destruct (exec_cmd ex j c w) as [[w' r] wk]. apply IH.
    + apply Forall_insert; [done | apply Hk].
    + exact Hw'.
  - rewrite step_tick. apply IH; [done | by apply advance_kept].
Qed.

Lemma replicate_confined (ks : list string) (n : nat) (p : prog) (w : world) :
  confined ks p -> Forall (fun t => confined ks (code t)) (replicate n (spawn p w)).
Proof. intros Hp. by apply Forall_replicate. Qed.

(** X1: Strategy 1 never calls Redis: whatever the schedule, the server is
    left exactly as it was. *)
Theorem no_cache_leaves_server (ex : executor) (sch : list event) (key : string)
    (n : nat) (w : world) :
  db (fst (run ex sch (no_cache_concurrent key n w))) = db w.
Proof.
  pose proof (run_confined ex [] w sch w (replicate n (spawn (no_cache_client key) w))
                (replicate_confined _ _ _ _ (confined_no_cache_client key)) (kept_refl _ _))
    as (_ & Hout & _).
  apply map_eq. intros k. apply Hout. apply not_elem_of_nil.
Qed.

Lemma clients_kept (ex : executor) (ks : list string) (sch : list event) (w0 w : world)
    (p : prog) (n : nat) :
  confined ks p -> kept ks w0 w -> kept ks w0 (fst (run ex sch (clients n p w))).
Proof.
  intros Hp Hw. unfold clients. apply run_confined; [|done].
  by apply replicate_confined.
Qed.

(** An entry found under a key that was absent at the start was written
    during the run, so it expires within ten seconds. *)
Lemma kept_fresh_entry (ks : list string) (w0 w : world) (k : string) (e : entry) :
  kept ks w0 w -> db w0 !! k = None -> db w !! k = Some e ->
  exists t, expires_at e = Some t /\ (t <= now w + 10000)%N.
Proof.
  intros (_ & _ & Hin) Hnone He. destruct (Hin k e He) as [Hold|]; [congruence | done].
Qed.

(** X2: Strategy 2 touches the key only, whatever the schedule: every other
    key of the server is as it was before the set-up, and what is under the
    key at any moment expires within ten seconds. *)
Theorem naive_touches_only_key (ex : executor) (sch : list event) (key : string)
    (n : nat) (w : world) :
  let w' := fst (run ex sch (naive_cache_concurrent key n w)) in
  (forall k, k ≠ key -> db w' !! k = db w !! k) /\
  (forall e, db w' !! key = Some e ->
     exists t, expires_at e = Some t /\ (t <= now w' + 10000)%N).
Proof.
  intros w'. subst w'. unfold naive_cache_concurrent.
  set (w1 := fresh_locals (set_db (fun d => redis_delete d key) w)).
  pose proof (clients_kept ex [key] sch w1 w1 _ n (confined_naive_client key) (kept_refl _ _))
    as Hk.
  split.
  - intros k Hne. destruct Hk as (_ & Hout & _). rewrite Hout.
    + subst w1. cbn. unfold redis_delete. by rewrite lookup_delete_ne.
    + rewrite list_elem_of_singleton. done.
  - intros e He. eapply kept_fresh_entry; [exact Hk | | exact He].
    subst w1. cbn. unfold redis_delete. by rewrite lookup_delete_eq.
Qed.

(** X3: Strategy 3 touches the key and its lock only, whatever the schedule,
    and whatever is under either of them expires within ten seconds: no
    lock is left for ever. *)
Theorem lock_touches_only_its_keys (ex : executor) (sch : list event) (key : string)
    (n : nat) (w : world) :
  let w' := fst (run ex sch (lock_cache_concurrent key n w)) in
  (forall k, k ≠ key -> k ≠ lock_key key -> db w' !! k = db w !! k) /\
  (forall k e, k = key \/ k = lock_key key -> db w' !! k = Some e ->
     exists t, expires_at e = Some t /\ (t <= now w' + 10000)%N).
Proof.
  intros w'. subst w'. unfold lock_cache_concurrent.
  set (w1 := fresh_locals _).
  pose proof (clients_kept ex [key; lock_key key] sch w1 w1 _ n
                (confined_lock_client key) (kept_refl _ _)) as Hk.
  pose proof (key_ne_lock key) as Hkl.
  split.
  - intros k Hne Hne'. destruct Hk as (_ & Hout & _). rewrite Hout.
    + subst w1. cbn. unfold redis_delete. by rewrite !lookup_delete_ne.
    + rewrite !elem_of_cons. intros [?|[?|H]]; [done | done | by apply not_elem_of_nil in H].
  - intros k e Hks He. eapply kept_fresh_entry; [exact Hk | | exact He].
    subst w1. cbn. unfold redis_delete. destruct Hks as [-> | ->].
    + by rewrite lookup_delete_ne, lookup_delete_eq.
    + by rewrite lookup_delete_eq.
Qed.

(** X4: Strategy 4 touches the key only, whatever the schedule, and what is
    under the key expires within ten seconds. *)
Theorem early_touches_only_key (ex : executor) (sch : list event) (key : string)
    (n : nat) (w : world) :
  let w' := fst (run ex sch (early_expiration_concurrent key n w)) in
  (forall k, k ≠ key -> db w' !! k = db w !! k) /\
  (forall e, db w' !! key = Some e ->
     exists t, expires_at e = Some t /\ (t <= now w' + 10000)%N).
Proof.
  intros w'. subst w'. unfold early_expiration_concurrent.
  set (w1 := set_db (fun d => redis_delete d key) w).
  assert (Hstart : kept [key] w1
            (advance 2500 (fresh_locals
               (set_db (fun d => redis_setex (now w1) d key 2 "initial_value") w1)))).
  { apply advance_kept.
    apply (kept_setex [key] w1 w1 key 2 "initial_value");
      [apply list_elem_of_singleton; done | lia | apply kept_refl]. }
  pose proof (clients_kept ex [key] sch w1 _ _ n (confined_early_client key) Hstart) as Hk.
  split.
  - intros k Hne. destruct Hk as (_ & Hout & _). rewrite Hout.
    + subst w1. cbn. unfold redis_delete. by rewrite lookup_delete_ne.
    + rewrite list_elem_of_singleton. done.
  - intros e He. eapply kept_fresh_entry; [exact Hk | | exact He].
    subst w1. cbn. unfold redis_delete. by rewrite lookup_delete_eq.
Qed.

(** X5: Strategy 5 touches the key, its marker and its result slot only,
    whatever the schedule, and whatever is under any of them expires
    within ten seconds: no marker is left for ever. *)
Theorem coalescing_touches_only_its_keys (ex : executor) (sch : list event)
    (key : string) (n : nat) (w : world) :
  let w' := fst (run ex sch (request_coalescing_concurrent key n w)) in
  (forall k, k ≠ key -> k ≠ computing_key key -> k ≠ result_key key ->
     db w' !! k = db w !! k) /\
  (forall k e, k = key \/ k = computing_key key \/ k = result_key key ->
     db w' !! k = Some e ->
     exists t, expires_at e = Some t /\ (t <= now w' + 10000)%N).
Proof.
  intros w'. subst w'. unfold request_coalescing_concurrent.
  set (w1 := fresh_locals _).
  pose proof (clients_kept ex [key; computing_key key; result_key key] sch w1 w1 _ n
                (confined_coalesce_client key) (kept_refl _ _)) as Hk.
  pose proof (key_ne_computing key) as Hkc.
  pose proof (key_ne_result key) as Hkr.
  pose proof (computing_ne_result key) as Hcr.
  split.
  - intros k Hne Hne' Hne''. destruct Hk as (_ & Hout & _). rewrite Hout.
    + subst w1. cbn. unfold redis_delete. by rewrite !lookup_delete_ne.
    + rewrite !elem_of_cons.
      intros [?|[?|[?|H]]]; [done | done | done | by apply not_elem_of_nil in H].
  - intros k e Hks He. eapply kept_fresh_entry; [exact Hk | | exact He].
    subst w1. cbn. unfold redis_delete. destruct Hks as [-> | [-> | ->]].
    + by rewrite lookup_delete_ne, lookup_delete_ne, lookup_delete_eq.
    + by rewrite lookup_delete_ne, lookup_delete_eq.
    + by rewrite lookup_delete_eq.
Qed.

(* ===================================================================== *)
(* How many calls a client makes, and how long it sleeps                  *)
(* ===================================================================== *)

Lemma bounded_mono (n n' : nat) (ms ms' : N) (p : prog) :
  bounded n ms p -> n <= n' -> (ms <= ms')%N -> bounded n' ms' p.
Proof.
  intros Hb. revert n' ms'.
  induction Hb as [| |n ms c k Hc _ IH]; intros n' ms' Hn Hms; try constructor.
  destruct n' as [|n']; [lia|]. constructor; [lia|].
  intros r. apply IH; lia.
Qed.

Lemma bounded_call (n : nat) (ms : N) (c : cmd) (k : pyval -> prog) :
  (slept [c] <= ms)%N ->
  (forall v, bounded n (ms - slept [c]) (k v)) ->
  bounded (S n) ms (call c k).
Proof.
  intros Hc Hk. unfold call. constructor; [done|].
  intros [v|]; [apply Hk | constructor].
Qed.

Lemma bounded_try_finally (n : nat) (ms : N) (p : prog) (c : cmd) :
  bounded n ms p -> slept [c] = 0%N -> bounded (S n) ms (try_finally p c).
Proof.
  intros Hb Hc. induction Hb as [| |n ms c' k Hc' _ IH]; simpl.
  - apply bounded_call; [lia|]. intros _. constructor.
  - apply bounded_call; [lia|]. intros _. constructor.
  - constructor; [done|]. apply IH.
Qed.

Lemma slept_cons (c : cmd) (cs : list cmd) : slept (c :: cs) = (slept [c] + slept cs)%N.
Proof. apply (slept_app [c] cs). Qed.

(** A bounded body keeps to its bounds whatever it is answered. *)
Lemma bounded_feed (n : nat) (ms : N) (p : prog) (rs : list reply) :
  bounded n ms p ->
  length (fst (feed p rs)) <= n /\ (slept (fst (feed p rs)) <= ms)%N.
Proof.
  intros Hb. revert rs.
  induction Hb as [| |n ms c k Hc _ IH]; intros rs; try (simpl; split; lia).
  destruct rs as [|r rs]; [simpl; split; lia|].
  cbn [feed]. destruct (IH r rs) as [Hlen Hsl].
  destruct (feed (k r) rs) as [cs q]. cbn [fst] in *.
  rewrite slept_cons. simpl length. split; lia.
Qed.

Lemma bounded_lock_wait (key : string) (m : nat) :
  bounded (2 * m + 1) (100 * N.of_nat m) (lock_wait key m).
Proof.
  induction m as [|m IH].
  - simpl. apply bounded_call; [simpl; lia|]. intros _. constructor.
  - replace (2 * S m + 1) with (S (S (2 * m + 1))) by lia.
    cbn [lock_wait]. apply bounded_call; [simpl; lia|]. intros _.
    apply bounded_call; [simpl; lia|]. intros v.
    destruct (truthy v); [constructor|].
    eapply bounded_mono; [exact IH | lia | simpl; lia].
Qed.

Lemma bounded_lock_client (key : string) : bounded 43 2000 (lock_client key).
Proof.
  unfold lock_client.
  apply bounded_call; [simpl; lia|]. intros c. destruct (truthy c); [constructor|].
  apply bounded_call; [simpl; lia|]. intros a. destruct (truthy a).
  - apply (bounded_mono 4 _ 0); [|lia|simpl; lia].
    apply bounded_try_finally; [|done].
    apply bounded_call; [simpl; lia|]. intros v.
    apply bounded_call; [simpl; lia|]. intros _.
    apply bounded_call; [simpl; lia|]. intros _. constructor.
  - eapply bounded_mono; [apply (bounded_lock_wait key 20) | lia | simpl; lia].
Qed.

Lemma bounded_coalesce_wait (key : string) (m : nat) :
  bounded (2 * m) (100 * N.of_nat m) (coalesce_wait key m).
Proof.
  induction m as [|m IH].
  - constructor.
  - replace (2 * S m) with (S (S (2 * m))) by lia.
    cbn [coalesce_wait]. apply bounded_call; [simpl; lia|]. intros v.
    destruct (truthy v).
    + apply bounded_call; [simpl; lia|]. intros _. constructor.
    + apply bounded_call; [simpl; lia|]. intros _.
      eapply bounded_mono; [exact IH | lia | simpl; lia].
Qed.

Lemma bounded_coalesce_client (key : string) : bounded 62 3000 (coalesce_client key).
Proof.
  unfold coalesce_client.
  apply bounded_call; [simpl; lia|]. intros c. destruct (truthy c); [constructor|].
  apply bounded_call; [simpl; lia|]. intros m. destruct (truthy m).
  - eapply bounded_mono; [apply (bounded_coalesce_wait key 30) | lia | simpl; lia].
  - apply (bounded_mono 7 _ 0); [|lia|simpl; lia].
    apply bounded_call; [simpl; lia|]. intros _.
    apply bounded_call; [simpl; lia|]. intros r. destruct (truthy r).
    + apply bounded_call; [simpl; lia|]. intros _. constructor.
    + apply bounded_call; [simpl; lia|]. intros v.
      apply bounded_call; [simpl; lia|]. intros _.
      apply bounded_call; [simpl; lia|]. intros _.
      apply bounded_call; [simpl; lia|]. intros _.
      apply bounded_call; [simpl; lia|]. intros _. constructor.
Qed.

(** The calls thread [i] of a pool of [n] like clients adds to the log
    during a run are within the bounds of the client's body. *)
Lemma clients_bounded (ex : executor) (sch : list event) (w : world) (p : prog)
    (n i calls_max : nat) (ms : N) :
  bounded calls_max ms p -> i < n ->
  exists trace : list cmd,
    calls_of i (fst (run ex sch (clients n p w))) = calls_of i w ++ trace /\
    length trace <= calls_max /\ (slept trace <= ms)%N.
Proof.
  intros Hb Hi. unfold clients.
  destruct (run_thread_feed ex sch w (replicate n (spawn p w)) i (spawn p w))
    as (rs & t' & _ & _ & Hcalls).
  { by apply lookup_replicate_2. }
  exists (fst (feed p rs)). split; [exact Hcalls|].
  by apply bounded_feed.
Qed.

(** X7: In any run of strategy 5, a client makes at most 62 calls and asks for
    at most 3000 ms of sleep. *)
Theorem coalesce_client_calls_bounded (ex : executor) (sch : list event) (key : string)
    (n i : nat) (w : world) :
  i < n ->
  exists trace : list cmd,
    calls_of i (fst (run ex sch (request_coalescing_concurrent key n w))) =
      calls_of i w ++ trace /\
    length trace <= 62 /\ (slept trace <= 3000)%N.
Proof.
  intros Hi. unfold request_coalescing_concurrent.
  match goal with
  | |- context [clients n (coalesce_client key) ?w0] =>
      destruct (clients_bounded ex sch w0 (coalesce_client key) n i 62 3000
                  (bounded_coalesce_client key) Hi) as (trace & Hcalls & Hbounds)
  end.
  exists trace. split; [exact Hcalls | exact Hbounds].
Qed.

Lemma coalesce_client_calls_bounded_witness :
  exists trace : list cmd,
    calls_of 1 (fst (run expensive_computation (round_robin 2 70)
                       (request_coalescing_concurrent "k" 2 boot))) =
      calls_of 1 boot ++ trace /\
    length trace <= 62 /\ (slept trace <= 3000)%N.
Proof.
  apply (coalesce_client_calls_bounded expensive_computation (round_robin 2 70) "k" 2 1 boot).
  lia.
Defined.

(* ===================================================================== *)
(* One invocation of the executor per client, at most                     *)
(* ===================================================================== *)

Lemma computes_call (n : nat) (c : cmd) (k : pyval -> prog) :
  is_compute c <= n ->
  (forall v, computes (n - is_compute c) (k v)) ->
  computes n (call c k).
Proof.
  intros Hc Hk. unfold call. constructor; [done|].
  intros [v|]; [apply Hk | constructor].
Qed.

Lemma computes_try_finally (n : nat) (p : prog) (c : cmd) :
  computes n p -> is_compute c = 0 -> computes n (try_finally p c).
Proof.
  intros Hp Hc. induction Hp as [| |n c' k Hc' _ IH]; simpl.
  - apply computes_call; [lia|]. intros _. constructor.
  - apply computes_call; [lia|]. intros _. constructor.
  - constructor; [done|]. apply IH.
Qed.

#[local] Ltac compute_once :=
  repeat first
    [ apply computes_ret
    | apply computes_throw
    | apply computes_try_finally; [|reflexivity]
    | apply computes_call; [simpl; lia | intros ?; cbv beta]
    | match goal with |- computes _ (if ?b then _ else _) => destruct b end ].

Lemma computes_no_cache_client (key : string) : computes 1 (no_cache_client key).
Proof. unfold no_cache_client. compute_once. Qed.

Lemma computes_naive_client (key : string) : computes 1 (naive_client key).
Proof. unfold naive_client. compute_once. Qed.

Lemma computes_early_client (key : string) : computes 1 (early_client key).
Proof. unfold early_client. compute_once. Qed.

Lemma computes_lock_client (key : string) : computes 1 (lock_client key).
Proof. unfold lock_client. compute_once. Qed.

Lemma computes_coalesce_client (key : string) : computes 1 (coalesce_client key).
Proof.
  unfold coalesce_client. compute_once.
Qed.

Lemma exec_cmd_calls (ex : executor) (i : nat) (c : cmd) (w : world) :
  calls (fst (fst (exec_cmd ex i c w))) = calls w + is_compute c.
Proof.
  destruct c as [k|k s v|k v s|k|ms|key|v|]; simpl; try lia.
  - destruct v, (s =? 0)%N; simpl; lia.
  - destruct (s =? 0)%N; [simpl; lia|].
    destruct (redis_set_nx_ex _ _ _ _ _). simpl. lia.
Qed.

Lemma sum_list_insert (l : list nat) (i x y : nat) :
  l !! i = Some x -> sum_list (<[i := y]> l) + x = sum_list l + y.
Proof.
  revert i. induction l as [|a l IH]; intros [|i] Hi; try done; simpl in *.
  - injection Hi as ->. lia.
  - specialize (IH i Hi). lia.
Qed.

(** Along any run, the invocations made and the invocations the threads
    may still make add up to what they were. *)
Lemma run_computes (ex : executor) (sch : list event) :
  forall (w : world) (ts : list thread) (bs : list nat),
  Forall2 (fun b t => computes b (code t)) bs ts ->
  exists bs' : list nat,
    Forall2 (fun b t => computes b (code t)) bs' (snd (run ex sch (w, ts))) /\
    calls (fst (run ex sch (w, ts))) + sum_list bs' = calls w + sum_list bs.
Proof.
  induction sch as [|e sch IH]; intros w ts bs Hbs.
  - exists bs. by split.
  - change (run ex (e :: sch) (w, ts)) with (run ex sch (step ex (w, ts) e)).
    destruct e as [j|ms].
    2:{ rewrite step_tick. destruct (IH (advance ms w) ts bs Hbs) as (bs' & Hbs' & Hsum).
        exists bs'. split; [exact Hbs' | exact Hsum]. }
    unfold step. destruct (ts !! j) as [tj|] eqn:Hj; [|by apply IH].
    unfold step_thread.
    destruct (now w <? wake tj)%N.
    { rewrite list_insert_id by done. by apply IH. }
    destruct (code tj) as [| |c k] eqn:Hcode;
      try (rewrite list_insert_id by done; by apply IH).
    destruct (Forall2_lookup_r _ _ _ _ _ Hbs Hj) as (b & Hb & Hcomp).
    rewrite Hcode in Hcomp. inversion Hcomp as [| |b' c' k' Hle Hk]; subst.
    pose proof (exec_cmd_calls ex j c w) as Hcalls.
    destruct (exec_cmd ex j c w) as [[w' r] wk]. cbn [fst] in Hcalls.
    destruct (IH w' (<[j := mkThread (k r) wk]> ts) (<[j := b - is_compute c]> bs))
      as (bs' & Hbs' & Hsum).
    { apply Forall2_insert; [done | apply Hk]. }
    exists bs'. split; [done|].
    pose proof (sum_list_insert bs j b (b - is_compute c) Hb). lia.
Qed.

Lemma clients_computes (ex : executor) (sch : list event) (w : world) (p : prog) (n : nat) :
  computes 1 p -> calls (fst (run ex sch (clients n p w))) <= calls w + n.
Proof.
  intros Hp. unfold clients.
  destruct (run_computes ex sch w (replicate n (spawn p w)) (replicate n 1))
    as (bs' & _ & Hsum).
  { by apply Forall2_replicate. }
  rewrite sum_list_replicate in Hsum. lia.
Qed.

(** X8: Whatever strategy [main] starts, whatever the executor and the
    schedule, the executor is invoked at most once per client: no client
    computes twice. *)
Theorem executor_calls_at_most_clients (s : strategy) (ex : executor) (sch : list event)
    (key : string) (n : nat) (w : world) :
  calls (fst (run ex sch (strategy_start s key n w))) <= calls w + n.
Proof.
  assert (Hall : forall p w0, computes 1 p -> calls w0 = calls w ->
            calls (fst (run ex sch (clients n p w0))) <= calls w + n).
  { intros p w0 Hp <-. by apply clients_computes. }
  destruct s; unfold strategy_start.
  - apply Hall; [apply computes_no_cache_client | done].
  - apply Hall; [apply computes_naive_client | done].
  - apply Hall; [apply computes_lock_client | done].
  - apply Hall; [apply computes_early_client | done].
  - apply Hall; [apply computes_coalesce_client | done].
Qed.

(** A body within its bounds keeps its thread from running for no longer
    than its own sleep and one run of the executor per invocation. *)
Lemma blocked_feed (ex : executor) (m : nat) (ms : N) (p : prog) :
  bounded m ms p ->
  forall (n : nat) (rs : list reply),
  computes n p ->
  (blocked ex (fst (feed p rs)) <= ms + exec_ms ex * N.of_nat n)%N.
Proof.
  induction 1 as [m ms|m ms|m ms c k Hc _ IH]; intros n rs Hn; try (simpl; lia).
  destruct rs as [|r rs]; [simpl; lia|].
  inversion Hn as [| |n' c' k' Hle Hk]; subst.
  specialize (IH r (n - is_compute c) rs (Hk r)).
  cbn [feed]. destruct (feed (k r) rs) as [cs q]. cbn [fst] in *.
  destruct c as [?|? ? ?|? ? ?|?|ms0|?|?|]; cbn [blocked fold_right] in *;
    fold (blocked ex cs) in *; cbn [slept fold_right is_compute] in *;
    rewrite ?Nat.sub_0_r, ?N.sub_0_r in IH; try lia.
  destruct n as [|n]; [lia|]. cbn [Nat.sub] in IH. rewrite Nat.sub_0_r in IH.
  rewrite Nat2N.inj_succ, N.mul_succ_r. lia.
Qed.

Lemma clients_blocked (ex : executor) (sch : list event) (w : world) (p : prog)
    (n i calls_max invocations : nat) (ms : N) :
  bounded calls_max ms p -> computes invocations p -> i < n ->
  exists trace : list cmd,
    calls_of i (fst (run ex sch (clients n p w))) = calls_of i w ++ trace /\
    length trace <= calls_max /\ (slept trace <= ms)%N /\
    (blocked ex trace <= ms + exec_ms ex * N.of_nat invocations)%N.
Proof.
  intros Hb Hc Hi. unfold clients.
  destruct (run_thread_feed ex sch w (replicate n (spawn p w)) i (spawn p w))
    as (rs & t' & _ & _ & Hcalls).
  { by apply lookup_replicate_2. }
  exists (fst (feed p rs)). split; [exact Hcalls|].
  destruct (bounded_feed calls_max ms p rs Hb) as [Hlen Hsl].
  repeat split; [done | done |]. by apply blocked_feed with (m := calls_max).
Qed.

(** X6: In any run of strategy 3, a client makes at most 43 calls; the
    sleep of its own it asks for, in its twenty polls, is at most 2000 ms,
    and with the time the executor takes it is kept from running for at
    most 2000 ms and one run of the executor (a waiter whose polls all
    miss sleeps its 2000 ms and then computes). *)
Theorem lock_client_calls_bounded (ex : executor) (sch : list event) (key : string)
    (n i : nat) (w : world) :
  i < n ->
  exists trace : list cmd,
    calls_of i (fst (run ex sch (lock_cache_concurrent key n w))) = calls_of i w ++ trace /\
    length trace <= 43 /\ (slept trace <= 2000)%N /\
    (blocked ex trace <= 2000 + exec_ms ex)%N.
Proof.
  intros Hi. unfold lock_cache_concurrent.
  destruct (clients_blocked ex sch
              (fresh_locals (set_db (fun d => redis_delete d (lock_key key))
                               (set_db (fun d => redis_delete d key) w)))
              (lock_client key) n i 43 1 2000
              (bounded_lock_client key) (computes_lock_client key) Hi)
    as (trace & Hcalls & Hlen & Hslept & Hblocked).
  exists trace. split; [exact Hcalls|]. repeat split; [done | done | lia].
Qed.

Lemma lock_client_calls_bounded_witness :
  exists trace : list cmd,
    calls_of 1 (fst (run expensive_computation (round_robin 2 50)
                       (lock_cache_concurrent "k" 2 boot))) = calls_of 1 boot ++ trace /\
    length trace <= 43 /\ (slept trace <= 2000)%N /\
    (blocked expensive_computation trace <= 2000 + exec_ms expensive_computation)%N.
Proof.
  apply (lock_client_calls_bounded expensive_computation (round_robin 2 50) "k" 2 1 boot).
  lia.
Defined.

(* ===================================================================== *)
(* The lock is given back                                                 *)
(* ===================================================================== *)

(** A [try]/[finally] that runs to its end ends with the clean-up call,
    whether the body returned or raised. *)
Lemma try_finally_last (p : prog) (c : cmd) (rs : list reply) :
  finished (snd (feed (try_finally p c) rs)) = true ->
  last (fst (feed (try_finally p c) rs)) = Some c.
Proof.
  revert rs. induction p as [| |c' k IH]; intros rs Hf.
  - destruct rs as [|[v|] rs]; [done| |]; simpl in *; reflexivity.
  - destruct rs as [|[v|] rs]; [done| |]; simpl in *; reflexivity.
  - destruct rs as [|r rs]; [done|].
    cbn [try_finally feed] in *. specialize (IH r rs).
    destruct (feed (try_finally (k r) c) rs) as [cs q]. cbn [fst snd] in *.
    specialize (IH Hf). destruct cs as [|c'' cs]; [done|]. exact IH.
Qed.

(** X9: A client of strategy 3 that was granted the lock and has run to its
    end, by returning or by an exception of the executor or of Redis, made
    the deletion of the lock its last call. *)
Theorem granted_client_releases_lock (key : string) (c a : pyval) (rs : list reply) :
  truthy c = false -> truthy a = true ->
  finished (snd (feed (lock_client key) (Val c :: Val a :: rs))) = true ->
  last (fst (feed (lock_client key) (Val c :: Val a :: rs))) = Some (Del (lock_key key)).
Proof.
  intros Hc Ha. unfold lock_client, call. cbn [feed]. rewrite Hc. cbn [feed]. rewrite Ha.
  match goal with
  | |- context [feed ?p rs] =>
      pose proof (try_finally_last _ _ rs :
        finished (snd (feed p rs)) = true ->
        last (fst (feed p rs)) = Some (Del (lock_key key))) as Hlast;
      destruct (feed p rs) as [cs q]
  end.
  cbn [fst snd] in *. intros Hf. specialize (Hlast Hf).
  destruct cs as [|c' cs]; [done|]. exact Hlast.
Qed.

Lemma granted_client_releases_lock_witness :
  last (fst (feed (lock_client "k") [Val PNone; Val (PBool true); Exn; Val (PInt 1)])) =
    Some (Del (lock_key "k")).
Proof.
  apply (granted_client_releases_lock "k" PNone (PBool true) [Exn; Val (PInt 1)]);
    reflexivity.
Defined.

(* ===================================================================== *)
(* Clients that run in step                                               *)
(* ===================================================================== *)

Lemma step_thread_do (ex : executor) (i : nat) (w : world) (c : cmd)
    (k : reply -> prog) (wk : N) :
  (wk <= now w)%N ->
  step_thread ex i w (mkThread (Do c k) wk) =
  (fst (fst (exec_cmd ex i c w)),
   mkThread (k (snd (fst (exec_cmd ex i c w)))) (snd (exec_cmd ex i c w))).
Proof.
  intros Hwk. unfold step_thread. simpl.
  destruct (N.ltb_spec (now w) wk); [lia |].
  by destruct (exec_cmd ex i c w) as [[w' r] wk'].
Qed.

(** One round over [m] threads of a pool that are at the same point [t],
    each of which is taken by its step to the same point [t']: [Q j] is
    what holds of the world when [j] of them have made the step. *)
Lemma lockstep (ex : executor) (t t' : thread) (m : nat) :
  forall (Q : nat -> world -> Prop) (pre post : list thread) (w : world),
  (forall j w1, j < m -> Q j w1 ->
     exists w2, step_thread ex (length pre + j) w1 t = (w2, t') /\ Q (S j) w2) ->
  Q 0 w ->
  exists w',
    run ex (map Run (seq (length pre) m)) (w, pre ++ replicate m t ++ post) =
      (w', pre ++ replicate m t' ++ post) /\
    Q m w'.
Proof.
  induction m as [|m IH]; intros Q pre post w Hstep HQ.
  - exists w. by split.
  - destruct (Hstep 0 w ltac:(lia) HQ) as (w1 & Hs & HQ1).
    rewrite Nat.add_0_r in Hs.
    destruct (IH (fun j => Q (S j)) (pre ++ [t']) post w1) as (w' & Hrun & HQ'); [|done|].
    { intros j w2 Hj HQj. rewrite length_app. simpl.
      replace (length pre + 1 + j) with (length pre + S j) by lia.
      apply Hstep; [lia | done]. }
    exists w'. split; [|done].
    cbn [seq map replicate].
    change ((t :: replicate m t) ++ post) with (t :: (replicate m t ++ post)).
    change (run ex (Run (length pre) :: map Run (seq (S (length pre)) m))
              (w, pre ++ t :: (replicate m t ++ post)))
      with (run ex (map Run (seq (S (length pre)) m))
              (step ex (w, pre ++ t :: (replicate m t ++ post)) (Run (length pre)))).
    unfold step. rewrite list_lookup_middle by done. rewrite Hs.
    rewrite insert_app_r_alt by lia. rewrite Nat.sub_diag. cbn [insert list_insert].
    rewrite length_app in Hrun. simpl in Hrun.
    replace (length pre + 1) with (S (length pre)) in Hrun by lia.
    rewrite (cons_middle t' pre), app_assoc, Hrun.
    by rewrite <- app_assoc.
Qed.

(** A whole pool in step: the round over all [n] threads. *)
Lemma lockstep_all (ex : executor) (t t' : thread) (n : nat)
    (Q : nat -> world -> Prop) (w : world) :
  (forall j w1, j < n -> Q j w1 ->
     exists w2, step_thread ex j w1 t = (w2, t') /\ Q (S j) w2) ->
  Q 0 w ->
  exists w',
    run ex (map Run (seq 0 n)) (w, replicate n t) = (w', replicate n t') /\ Q n w'.
Proof.
  intros Hstep HQ.
  destruct (lockstep ex t t' n Q [] [] w Hstep HQ) as (w' & Hrun & HQ').
  cbn [app length] in Hrun. rewrite !app_nil_r in Hrun. by exists w'.
Qed.

Lemma run_tick (ex : executor) (w : world) (ts : list thread) (ms : N) :
  run ex [Tick ms] (w, ts) = (advance ms w, ts).
Proof. reflexivity. Qed.

Lemma round_robin_2 (n : nat) :
  round_robin n 2 = map Run (seq 0 n) ++ map Run (seq 0 n).
Proof. unfold round_robin. simpl. by rewrite app_nil_r. Qed.

(** The read-compute-write client of strategies 2 and 4 (they differ in
    the expiry [s] they write with), [n] of them in step on a key that is
    missing, with an executor that returns the string [v]: every one of
    them misses, calls the executor, writes and appends. *)
Lemma cache_aside_stampede (ex : executor) (key : string) (s : positive) (v : string)
    (n : nat) (w0 : world) :
  redis_get (now w0) (db w0) key = PNone ->
  exec_reply ex key (now w0) = Val (PStr v) ->
  exists w',
    run ex (round_robin n 2 ++ [Tick (exec_ms ex)] ++ round_robin n 2)
      (clients n (cached <- Get key ;;
                  if truthy cached then Ret else
                  result <- Compute key ;;
                  SetEx key (N.pos s) result ;;
                  Append result ;;
                  Ret) w0) =
      (w', replicate n (mkThread Ret (now w0 + exec_ms ex))) /\
    now w' = (now w0 + exec_ms ex)%N /\
    calls w' = calls w0 + n /\
    results w' = results w0 ++ replicate n (PStr v) /\
    computations w' = computations w0 /\
    (0 < n -> db w' !! key = Some (mkEntry v (Some (now w0 + exec_ms ex + 1000 * N.pos s)%N))).
Proof.
  intros Hmiss Hval. rewrite round_robin_2, !run_app. unfold clients, spawn.
  (* every client reads the key and misses *)
  destruct (lockstep_all ex
              (mkThread (cached <- Get key ;;
                         if truthy cached then Ret else
                         result <- Compute key ;; SetEx key (N.pos s) result ;; Append result ;; Ret)
                 (now w0))
              (mkThread (result <- Compute key ;; SetEx key (N.pos s) result ;; Append result ;; Ret)
                 (now w0))
              n
              (fun _ w => now w = now w0 /\ db w = db w0 /\ calls w = calls w0 /\
                          results w = results w0 /\ computations w = computations w0) w0)
    as (w1 & -> & Hnow1 & _ & Hcalls1 & Hres1 & Hcomp1); [|done|].
  { intros j w Hj (Hnow & Hdb & Hcalls & Hres & Hcomp).
    eexists. split.
    - unfold call. rewrite step_thread_do by lia.
      unfold exec_cmd. world_simpl. rewrite Hdb, Hnow, Hmiss. reflexivity.
    - by world_simpl. }
  (* every client calls the executor, at the same time *)
  destruct (lockstep_all ex
              (mkThread (result <- Compute key ;; SetEx key (N.pos s) result ;; Append result ;; Ret)
                 (now w0))
              (mkThread (SetEx key (N.pos s) (PStr v) ;; Append (PStr v) ;; Ret)
                 (now w0 + exec_ms ex))
              n
              (fun j w => now w = now w0 /\ calls w = calls w0 + j /\
                          results w = results w0 /\ computations w = computations w0) w1)
    as (w2 & -> & Hnow2 & Hcalls2 & Hres2 & Hcomp2); [| repeat split; (done || lia) |].
  { intros j w Hj (Hnow & Hcalls & Hres & Hcomp).
    eexists. split.
    - unfold call. rewrite step_thread_do by lia.
      unfold exec_cmd. world_simpl. rewrite Hnow, Hval. reflexivity.
    - world_simpl. repeat split; (done || lia). }
  (* the executor's sleep passes *)
  rewrite run_tick.
  (* every client writes the value *)
  destruct (lockstep_all ex
              (mkThread (SetEx key (N.pos s) (PStr v) ;; Append (PStr v) ;; Ret)
                 (now w0 + exec_ms ex))
              (mkThread (Append (PStr v) ;; Ret) (now w0 + exec_ms ex))
              n
              (fun j w => now w = (now w0 + exec_ms ex)%N /\ calls w = calls w0 + n /\
                          results w = results w0 /\ computations w = computations w0 /\
                          (0 < j -> db w !! key =
                             Some (mkEntry v (Some (now w0 + exec_ms ex + 1000 * N.pos s)%N))))
              (advance (exec_ms ex) w2))
    as (w3 & -> & Hnow3 & Hcalls3 & Hres3 & Hcomp3 & Hdb3).
  { intros j w Hj (Hnow & Hcalls & Hres & Hcomp & _).
    eexists. split.
    - unfold call. rewrite step_thread_do by (simpl; lia).
      unfold exec_cmd. world_simpl. rewrite Hnow. reflexivity.
    - world_simpl. repeat split; try done.
      intros _. unfold redis_setex. by rewrite lookup_insert_eq. }
  { world_simpl. repeat split; try done; lia. }
  (* every client appends to [results] *)
  destruct (lockstep_all ex
              (mkThread (Append (PStr v) ;; Ret) (now w0 + exec_ms ex))
              (mkThread Ret (now w0 + exec_ms ex))
              n
              (fun j w => now w = (now w0 + exec_ms ex)%N /\ calls w = calls w0 + n /\
                          results w = results w0 ++ replicate j (PStr v) /\
                          computations w = computations w0 /\
                          db w = db w3)
              w3)
    as (w4 & -> & Hnow4 & Hcalls4 & Hres4 & Hcomp4 & Hdb4).
  { intros j w Hj (Hnow & Hcalls & Hres & Hcomp & Hdb).
    eexists. split.
    - unfold call. rewrite step_thread_do by (simpl; lia).
      unfold exec_cmd. world_simpl. rewrite Hnow. reflexivity.
    - world_simpl. repeat split; try done.
      by rewrite Hres, replicate_S_end, app_assoc. }
  { repeat split; try done. simpl. by rewrite app_nil_r. }
  exists w4. repeat split; try done. rewrite Hdb4. exact Hdb3.
Qed.

Lemma returned_replicate (n : nat) (wk : N) :
  map returned (replicate n (mkThread Ret wk)) = replicate n true.
Proof. induction n as [|n IH]; [done|]. simpl. by rewrite IH. Qed.

Lemma redis_get_deleted (t : N) (d : gmap string entry) (k : string) :
  redis_get t (redis_delete d k) k = PNone.
Proof. unfold redis_get, redis_delete. by rewrite lookup_delete_eq. Qed.

(** X10: Strategy 2 with any number of clients that run in step: whatever the
    server held before, when the executor returns a string every client
    misses, calls the executor and appends, so [results] ends up with one
    entry per client, and the key holds the value for ten seconds from the
    writes. *)
Theorem naive_stampede (ex : executor) (key v : string) (n : nat) (w : world) :
  exec_reply ex key (now w) = Val (PStr v) ->
  let cfg := run ex (round_robin n 2 ++ [Tick (exec_ms ex)] ++ round_robin n 2)
               (naive_cache_concurrent key n w) in
  calls (fst cfg) = calls w + n /\
  results (fst cfg) = replicate n (PStr v) /\
  map returned (snd cfg) = replicate n true /\
  (0 < n -> db (fst cfg) !! key =
            Some (mkEntry v (Some (now w + exec_ms ex + 10000)%N))).
Proof.
  intros Hval cfg. subst cfg. unfold naive_cache_concurrent, naive_client.
  destruct (cache_aside_stampede ex key 10%positive v n
              (fresh_locals (set_db (fun d => redis_delete d key) w)))
    as (w' & -> & Hnow & Hcalls & Hres & _ & Hdb).
  { apply redis_get_deleted. }
  { exact Hval. }
  cbn [fst snd]. repeat split.
  - exact Hcalls.
  - exact Hres.
  - apply returned_replicate.
  - exact Hdb.
Qed.

Lemma naive_stampede_witness :
  let cfg := run expensive_computation
               (round_robin 3 2 ++ [Tick (exec_ms expensive_computation)] ++ round_robin 3 2)
               (naive_cache_concurrent "k" 3 boot) in
  calls (fst cfg) = calls boot + 3 /\
  results (fst cfg) = replicate 3 (PStr "data_k_2000") /\
  map returned (snd cfg) = replicate 3 true /\
  (0 < 3 -> db (fst cfg) !! "k" =
            Some (mkEntry "data_k_2000"
                    (Some (now boot + exec_ms expensive_computation + 10000)%N))).
Proof.
  apply (naive_stampede expensive_computation "k" "data_k_2000" 3 boot).
  reflexivity.
Defined.

(** X11: Strategy 4 starts on a miss whatever the server held: the value it
    pre-populates expires after two seconds and the clients are started
    after two and a half, so no client can ever read it. *)
Theorem early_prepopulated_value_expired (key : string) (n : nat) (w : world) :
  let start := fst (early_expiration_concurrent key n w) in
  now start = (now w + 2500)%N /\
  redis_get (now start) (db start) key = PNone /\
  (exists e, db start !! key = Some e /\ value e = "initial_value" /\
             expires_at e = Some (now w + 2000)%N).
Proof.
  unfold early_expiration_concurrent, clients. world_simpl. repeat split.
  - apply redis_get_expired. lia.
  - eexists. split; [apply lookup_insert_eq|]. by split.
Qed.

(** X12: Strategy 4 with any number of clients that run in step: whatever the
    server held before, when the executor returns a string every client
    misses, calls the executor and appends; the value is kept for five
    seconds from the writes. *)
Theorem early_stampede (ex : executor) (key v : string) (n : nat) (w : world) :
  exec_reply ex key (now w + 2500)%N = Val (PStr v) ->
  let cfg := run ex (round_robin n 2 ++ [Tick (exec_ms ex)] ++ round_robin n 2)
               (early_expiration_concurrent key n w) in
  calls (fst cfg) = calls w + n /\
  results (fst cfg) = replicate n (PStr v) /\
  map returned (snd cfg) = replicate n true /\
  (0 < n -> db (fst cfg) !! key =
            Some (mkEntry v (Some (now w + 2500 + exec_ms ex + 5000)%N))).
Proof.
  intros Hval cfg.
  destruct (cache_aside_stampede ex key 5%positive v n
              (advance 2500
                 (fresh_locals
                    (set_db (fun d => redis_setex (now w) d key 2 "initial_value")
                       (set_db (fun d => redis_delete d key) w)))))
    as (w' & Hrun & Hnow & Hcalls & Hres & _ & Hdb).
  { world_simpl. apply redis_get_expired. lia. }
  { exact Hval. }
  assert (Hcfg : cfg = (w', replicate n (mkThread Ret (now w + 2500 + exec_ms ex)))).
  { exact Hrun. }
  rewrite Hcfg. cbn [fst snd]. repeat split.
  - exact Hcalls.
  - exact Hres.
  - apply returned_replicate.
  - exact Hdb.
Qed.

Lemma early_stampede_witness :
  let cfg := run expensive_computation
               (round_robin 3 2 ++ [Tick (exec_ms expensive_computation)] ++ round_robin 3 2)
               (early_expiration_concurrent "k" 3 boot) in
  calls (fst cfg) = calls boot + 3 /\
  results (fst cfg) = replicate 3 (PStr "data_k_4500") /\
  map returned (snd cfg) = replicate 3 true /\
  (0 < 3 -> db (fst cfg) !! "k" =
            Some (mkEntry "data_k_4500"
                    (Some (now boot + 2500 + exec_ms expensive_computation + 5000)%N))).
Proof.
  apply (early_stampede expensive_computation "k" "data_k_4500" 3 boot).
  reflexivity.
Defined.

(** X13: Strategy 1 with any number of clients: once every client has been
    scheduled once, the executor has been invoked once per client, as the
    summary line of the function says, every client being inside the
    executor until the executor's time is over; once that time has passed
    every client has come to its end (returned, or raised what the executor
    raised), and the server has not been touched. *)
Theorem no_cache_all_clients_compute (ex : executor) (key : string) (n : nat) (w : world) :
  let started := run ex (round_robin n 1) (no_cache_concurrent key n w) in
  let cfg := run ex [Tick (exec_ms ex)] started in
  calls (fst started) = calls w + n /\
  Forall (fun t => wake t = (now w + exec_ms ex)%N) (snd started) /\
  calls (fst cfg) = calls w + n /\
  db (fst cfg) = db w /\
  Forall (fun t => finished_at (fst cfg) t = true) (snd cfg).
Proof.
  intros started cfg. subst cfg started.
  unfold no_cache_concurrent, clients, spawn, round_robin.
  simpl concat. rewrite app_nil_r.
  destruct (lockstep_all ex
              (mkThread (no_cache_client key) (now w))
              (mkThread (match exec_reply ex key (now w) with Val _ => Ret | Exn => Throw end)
                 (now w + exec_ms ex))
              n
              (fun j w1 => now w1 = now w /\ calls w1 = calls w + j /\ db w1 = db w) w)
    as (w' & -> & Hnow & Hcalls & Hdb).
  { intros j w1 Hj (Hnow & Hcalls & Hdb).
    eexists. split.
    - unfold no_cache_client, call. rewrite step_thread_do by lia.
      unfold exec_cmd. world_simpl. rewrite Hnow. reflexivity.
    - world_simpl. repeat split; (done || lia). }
  { repeat split; (done || lia). }
  rewrite run_tick. cbn [fst snd]. world_simpl. repeat split; try done.
  - by apply Forall_replicate.
  - apply Forall_replicate. unfold finished_at. cbn [code wake now].
    apply andb_true_iff. split.
    + by destruct (exec_reply ex key (now w)).
    + apply N.leb_le. lia.
Qed.

Lemma round_robin_S (n m : nat) :
  round_robin n (S m) = map Run (seq 0 n) ++ round_robin n m.
Proof. reflexivity. Qed.

(** X14: Strategy 5 with any number of clients that run in step on an executor
    that returns a string: every client reads the marker before any of
    them writes it, so every one of them writes it, calls the executor,
    writes the result and the key, deletes the marker and counts: the
    count [computations] ends up at the number of clients. *)
Theorem coalescing_stampede (ex : executor) (key v : string) (n : nat) (w : world) :
  exec_reply ex key (now w) = Val (PStr v) ->
  let cfg := run ex (round_robin n 5 ++ [Tick (exec_ms ex)] ++ round_robin n 4)
               (request_coalescing_concurrent key n w) in
  calls (fst cfg) = calls w + n /\
  computations (fst cfg) = n /\
  map returned (snd cfg) = replicate n true /\
  (0 < n -> db (fst cfg) !! key =
              Some (mkEntry v (Some (now w + exec_ms ex + 10000)%N)) /\
            db (fst cfg) !! computing_key key = None).
Proof.
  intros Hval cfg. subst cfg.
  unfold request_coalescing_concurrent, clients, spawn.
  rewrite !round_robin_S. change (round_robin n 0) with (@nil event).
  rewrite !app_nil_r, !run_app.
  set (w0 := fresh_locals _).
  assert (Hnow0 : now w0 = now w) by done.
  assert (Hcalls0 : calls w0 = calls w) by done.
  assert (Hcomp0 : computations w0 = 0) by done.
  assert (Hkey0 : db w0 !! key = None).
  { subst w0. world_simpl. unfold redis_delete.
    rewrite lookup_delete_ne by (apply not_eq_sym, key_ne_result).
    rewrite lookup_delete_ne by (apply not_eq_sym, key_ne_computing).
    apply lookup_delete_eq. }
  assert (Hmark0 : db w0 !! computing_key key = None).
  { subst w0. world_simpl. unfold redis_delete.
    rewrite lookup_delete_ne by (apply not_eq_sym, computing_ne_result).
    apply lookup_delete_eq. }
  assert (Hslot0 : db w0 !! result_key key = None).
  { subst w0. world_simpl. unfold redis_delete. apply lookup_delete_eq. }
  clearbody w0.
  (* every client reads the key and misses *)
  destruct (lockstep_all ex (mkThread (coalesce_client key) (now w0))
              (mkThread
                 (computing <- Get (computing_key key) ;;
                  if truthy computing then coalesce_wait key 30 else
                  SetEx (computing_key key) 5 (PStr "1") ;;
                  result <- Get (result_key key) ;;
                  if truthy result then SetEx key 10 result ;; Ret else
                  result <- Compute key ;;
                  SetEx (result_key key) 5 result ;;
                  SetEx key 10 result ;;
                  Del (computing_key key) ;;
                  Incr ;;
                  Ret) (now w0))
              n
              (fun _ w1 => now w1 = now w0 /\ db w1 = db w0 /\ calls w1 = calls w0 /\
                           computations w1 = computations w0) w0)
    as (w1 & -> & Hnow1 & Hdb1 & Hcalls1 & Hcomp1); [|done|].
  { intros j w1 Hj (Hnow & Hdb & Hcalls & Hcomp). eexists. split.
    - unfold coalesce_client, call. rewrite step_thread_do by lia.
      unfold exec_cmd. world_simpl. unfold redis_get. rewrite Hdb, Hnow, Hkey0. reflexivity.
    - by world_simpl. }
  (* every client reads the marker, which nobody has written yet *)
  destruct (lockstep_all ex
              (mkThread
                 (computing <- Get (computing_key key) ;;
                  if truthy computing then coalesce_wait key 30 else
                  SetEx (computing_key key) 5 (PStr "1") ;;
                  result <- Get (result_key key) ;;
                  if truthy result then SetEx key 10 result ;; Ret else
                  result <- Compute key ;;
                  SetEx (result_key key) 5 result ;;
                  SetEx key 10 result ;;
                  Del (computing_key key) ;;
                  Incr ;;
                  Ret) (now w0))
              (mkThread
                 (SetEx (computing_key key) 5 (PStr "1") ;;
                  result <- Get (result_key key) ;;
                  if truthy result then SetEx key 10 result ;; Ret else
                  result <- Compute key ;;
                  SetEx (result_key key) 5 result ;;
                  SetEx key 10 result ;;
                  Del (computing_key key) ;;
                  Incr ;;
                  Ret) (now w0))
              n
              (fun _ w2 => now w2 = now w0 /\ db w2 = db w0 /\ calls w2 = calls w0 /\
                           computations w2 = computations w0) w1)
    as (w2 & -> & Hnow2 & Hdb2 & Hcalls2 & Hcomp2); [|done|].
  { intros j w2 Hj (Hnow & Hdb & Hcalls & Hcomp). eexists. split.
    - unfold call. rewrite step_thread_do by lia.
      unfold exec_cmd. world_simpl. unfold redis_get. rewrite Hdb, Hnow, Hmark0. reflexivity.
    - by world_simpl. }
  (* every client writes the marker *)
  destruct (lockstep_all ex
              (mkThread
                 (SetEx (computing_key key) 5 (PStr "1") ;;
                  result <- Get (result_key key) ;;
                  if truthy result then SetEx key 10 result ;; Ret else
                  result <- Compute key ;;
                  SetEx (result_key key) 5 result ;;
                  SetEx key 10 result ;;
                  Del (computing_key key) ;;
                  Incr ;;
                  Ret) (now w0))
              (mkThread
                 (result <- Get (result_key key) ;;
                  if truthy result then SetEx key 10 result ;; Ret else
                  result <- Compute key ;;
                  SetEx (result_key key) 5 result ;;
                  SetEx key 10 result ;;
                  Del (computing_key key) ;;
                  Incr ;;
                  Ret) (now w0))
              n
              (fun _ w3 => now w3 = now w0 /\ db w3 !! result_key key = None /\
                           calls w3 = calls w0 /\ computations w3 = computations w0) w2)
    as (w3 & -> & Hnow3 & Hslot3 & Hcalls3 & Hcomp3).
  { intros j w3 Hj (Hnow & Hslot & Hcalls & Hcomp). eexists. split.
    - unfold call. rewrite step_thread_do by lia.
      unfold exec_cmd. world_simpl. rewrite Hnow. reflexivity.
    - world_simpl. repeat split; try done.
      unfold redis_setex. by rewrite lookup_insert_ne by apply computing_ne_result. }
  { repeat split; try done. by rewrite Hdb2. }
  (* every client looks at the result slot, which is empty *)
  destruct (lockstep_all ex
              (mkThread
                 (result <- Get (result_key key) ;;
                  if truthy result then SetEx key 10 result ;; Ret else
                  result <- Compute key ;;
                  SetEx (result_key key) 5 result ;;
                  SetEx key 10 result ;;
                  Del (computing_key key) ;;
                  Incr ;;
                  Ret) (now w0))
              (mkThread
                 (result <- Compute key ;;
                  SetEx (result_key key) 5 result ;;
                  SetEx key 10 result ;;
                  Del (computing_key key) ;;
                  Incr ;;
                  Ret) (now w0))
              n
              (fun _ w4 => now w4 = now w0 /\ db w4 !! result_key key = None /\
                           calls w4 = calls w0 /\ computations w4 = computations w0) w3)
    as (w4 & -> & Hnow4 & _ & Hcalls4 & Hcomp4); [|done|].
  { intros j w4 Hj (Hnow & Hslot & Hcalls & Hcomp). eexists. split.
    - unfold call. rewrite step_thread_do by lia.
      unfold exec_cmd. world_simpl. unfold redis_get. rewrite Hslot, Hnow. reflexivity.
    - by world_simpl. }
  (* every client calls the executor *)
  destruct (lockstep_all ex
              (mkThread
                 (result <- Compute key ;;
                  SetEx (result_key key) 5 result ;;
                  SetEx key 10 result ;;
                  Del (computing_key key) ;;
                  Incr ;;
                  Ret) (now w0))
              (mkThread
                 (SetEx (result_key key) 5 (PStr v) ;;
                  SetEx key 10 (PStr v) ;;
                  Del (computing_key key) ;;
                  Incr ;;
                  Ret) (now w0 + exec_ms ex))
              n
              (fun j w5 => now w5 = now w0 /\ calls w5 = calls w0 + j /\
                           computations w5 = computations w0) w4)
    as (w5 & -> & Hnow5 & Hcalls5 & Hcomp5); [| repeat split; (done || lia) |].
  { intros j w5 Hj (Hnow & Hcalls & Hcomp). eexists. split.
    - unfold call. rewrite step_thread_do by lia.
      unfold exec_cmd. world_simpl. rewrite Hnow, Hnow0, Hval. reflexivity.
    - world_simpl. repeat split; (done || lia). }
  rewrite run_tick.
  (* every client writes the result slot *)
  destruct (lockstep_all ex
              (mkThread
                 (SetEx (result_key key) 5 (PStr v) ;;
                  SetEx key 10 (PStr v) ;;
                  Del (computing_key key) ;;
                  Incr ;;
                  Ret) (now w0 + exec_ms ex))
              (mkThread
                 (SetEx key 10 (PStr v) ;;
                  Del (computing_key key) ;;
                  Incr ;;
                  Ret) (now w0 + exec_ms ex))
              n
              (fun _ w6 => now w6 = (now w0 + exec_ms ex)%N /\ calls w6 = calls w0 + n /\
                           computations w6 = computations w0)
              (advance (exec_ms ex) w5))
    as (w6 & -> & Hnow6 & Hcalls6 & Hcomp6).
  { intros j w6 Hj (Hnow & Hcalls & Hcomp). eexists. split.
    - unfold call. rewrite step_thread_do by (simpl; lia).
      unfold exec_cmd. world_simpl. rewrite Hnow. reflexivity.
    - by world_simpl. }
  { world_simpl. repeat split; (done || lia). }
  (* every client writes the key *)
  destruct (lockstep_all ex
              (mkThread
                 (SetEx key 10 (PStr v) ;;
                  Del (computing_key key) ;;
                  Incr ;;
                  Ret) (now w0 + exec_ms ex))
              (mkThread
                 (Del (computing_key key) ;;
                  Incr ;;
                  Ret) (now w0 + exec_ms ex))
              n
              (fun j w7 => now w7 = (now w0 + exec_ms ex)%N /\ calls w7 = calls w0 + n /\
                           computations w7 = computations w0 /\
                           (0 < j -> db w7 !! key =
                              Some (mkEntry v (Some (now w0 + exec_ms ex + 1000 * 10)%N))))
              w6)
    as (w7 & -> & Hnow7 & Hcalls7 & Hcomp7 & Hkey7).
  { intros j w7 Hj (Hnow & Hcalls & Hcomp & _). eexists. split.
    - unfold call. rewrite step_thread_do by (simpl; lia).
      unfold exec_cmd. world_simpl. rewrite Hnow. reflexivity.
    - world_simpl. repeat split; try done.
      intros _. unfold redis_setex. by rewrite lookup_insert_eq. }
  { repeat split; try done. lia. }
  (* every client deletes the marker *)
  destruct (lockstep_all ex
              (mkThread
                 (Del (computing_key key) ;;
                  Incr ;;
                  Ret) (now w0 + exec_ms ex))
              (mkThread (Incr ;; Ret) (now w0 + exec_ms ex))
              n
              (fun j w8 => now w8 = (now w0 + exec_ms ex)%N /\ calls w8 = calls w0 + n /\
                           computations w8 = computations w0 /\
                           db w8 !! key = db w7 !! key /\
                           (0 < j -> db w8 !! computing_key key = None))
              w7)
    as (w8 & -> & Hnow8 & Hcalls8 & Hcomp8 & Hkey8 & Hmark8).
  { intros j w8 Hj (Hnow & Hcalls & Hcomp & Hkey & _). eexists. split.
    - unfold call. rewrite step_thread_do by (simpl; lia).
      unfold exec_cmd. world_simpl. rewrite Hnow. reflexivity.
    - world_simpl. unfold redis_delete. repeat split; try done.
      + by rewrite lookup_delete_ne by (apply not_eq_sym, key_ne_computing).
      + intros _. apply lookup_delete_eq. }
  { repeat split; try done. lia. }
  (* every client counts its computation *)
  destruct (lockstep_all ex
              (mkThread (Incr ;; Ret) (now w0 + exec_ms ex))
              (mkThread Ret (now w0 + exec_ms ex))
              n
              (fun j w9 => now w9 = (now w0 + exec_ms ex)%N /\
                           calls w9 = calls w0 + n /\
                           computations w9 = computations w0 + j /\
                           db w9 = db w8)
              w8)
    as (w9 & -> & _ & Hcalls9 & Hcomp9 & Hdb9).
  { intros j w9 Hj (Hnow & Hcalls & Hcomp & Hdb). eexists. split.
    - unfold call. rewrite step_thread_do by (simpl; lia).
      unfold exec_cmd. world_simpl. rewrite Hnow. reflexivity.
    - world_simpl. repeat split; try done. lia. }
  { repeat split; try done. lia. }
  cbn [fst snd]. repeat split.
  - lia.
  - lia.
  - apply returned_replicate.
  - rewrite Hdb9, Hkey8, Hkey7 by done. rewrite Hnow0. do 3 f_equal; lia.
  - rewrite Hdb9. by apply Hmark8.
Qed.

Lemma coalescing_stampede_witness :
  let cfg := run expensive_computation
               (round_robin 3 5 ++ [Tick (exec_ms expensive_computation)] ++ round_robin 3 4)
               (request_coalescing_concurrent "k" 3 boot) in
  calls (fst cfg) = calls boot + 3 /\
  computations (fst cfg) = 3 /\
  map returned (snd cfg) = replicate 3 true /\
  (0 < 3 -> db (fst cfg) !! "k" =
              Some (mkEntry "data_k_2000"
                      (Some (now boot + exec_ms expensive_computation + 10000)%N)) /\
            db (fst cfg) !! computing_key "k" = None).
Proof.
  apply (coalescing_stampede expensive_computation "k" "data_k_2000" 3 boot).
  reflexivity.
Defined.

(* ===================================================================== *)
(* The lock at work                                                       *)
(* ===================================================================== *)

Lemma step_head (ex : executor) (t t' : thread) (rest : list thread) (w w' : world) :
  step_thread ex 0 w t = (w', t') ->
  run ex [Run 0] (w, t :: rest) = (w', t' :: rest).
Proof. intros Hs. simpl. by rewrite Hs. Qed.

(** A round over every thread of a pool but the first. *)
Lemma lockstep_tail (ex : executor) (t0 t t' : thread) (m : nat)
    (Q : nat -> world -> Prop) (w : world) :
  (forall j w1, j < m -> Q j w1 ->
     exists w2, step_thread ex (S j) w1 t = (w2, t') /\ Q (S j) w2) ->
  Q 0 w ->
  exists w',
    run ex (map Run (seq 1 m)) (w, t0 :: replicate m t) = (w', t0 :: replicate m t') /\
    Q m w'.
Proof.
  intros Hstep HQ.
  destruct (lockstep ex t t' m Q [t0] [] w Hstep HQ) as (w' & Hrun & HQ').
  cbn [app length] in Hrun. rewrite !app_nil_r in Hrun. by exists w'.
Qed.

Lemma single_flyer_schedule_eq (ex : executor) (m : nat) :
  single_flyer_schedule ex m =
  map Run (seq 0 (S m)) ++ [Run 0] ++ map Run (seq 1 m) ++
  [Run 0] ++ [Tick (exec_ms ex)] ++ [Run 0] ++ [Run 0] ++ [Run 0] ++
  map Run (seq 1 m) ++ [Tick 100] ++ map Run (seq 1 m).
Proof.
  unfold single_flyer_schedule. rewrite round_robin_2. cbn [seq map].
  by rewrite <- !app_assoc.
Qed.

(** X15: Strategy 3 with any number of clients, when the lock does its work:
    whatever the server held before, with an executor that returns a
    non-empty string, client 0 is granted the lock and every other client
    is refused it; client 0 computes, writes the key, appends and deletes
    the lock; every other client finds the value at its first poll. The
    executor has been invoked once, [results] has one entry, every client
    has returned and the lock is gone. *)
Theorem lock_single_flyer (ex : executor) (key v : string) (m : nat) (w : world) :
  exec_reply ex key (now w) = Val (PStr v) ->
  v ≠ "" ->
  let cfg := run ex (single_flyer_schedule ex m) (lock_cache_concurrent key (S m) w) in
  calls (fst cfg) = calls w + 1 /\
  results (fst cfg) = [PStr v] /\
  map returned (snd cfg) = replicate (S m) true /\
  db (fst cfg) !! lock_key key = None /\
  db (fst cfg) !! key = Some (mkEntry v (Some (now w + exec_ms ex + 10000)%N)).
Proof.
  intros Hval Hv cfg. subst cfg.
  unfold lock_cache_concurrent, clients, spawn.
  rewrite single_flyer_schedule_eq, !run_app.
  set (w0 := fresh_locals _).
  assert (Hnow0 : now w0 = now w) by done.
  assert (Hcalls0 : calls w0 = calls w) by done.
  assert (Hres0 : results w0 = []) by done.
  assert (Hkey0 : db w0 !! key = None).
  { subst w0. world_simpl. unfold redis_delete.
    rewrite lookup_delete_ne by (apply not_eq_sym, key_ne_lock).
    apply lookup_delete_eq. }
  assert (Hlock0 : db w0 !! lock_key key = None).
  { subst w0. world_simpl. unfold redis_delete. apply lookup_delete_eq. }
  rewrite <- Hnow0, <- Hcalls0. rewrite <- Hnow0 in Hval. clearbody w0.
  (* every client reads the key and misses *)
  destruct (lockstep_all ex (mkThread (lock_client key) (now w0))
              (mkThread
                 (acquired <- SetNxEx (lock_key key) "locked" 10 ;;
                  if truthy acquired then
                    try_finally
                      (result <- Compute key ;;
                       SetEx key 10 result ;;
                       Append result ;;
                       Ret)
                      (Del (lock_key key))
                  else lock_wait key 20) (now w0))
              (S m)
              (fun _ w1 => now w1 = now w0 /\ db w1 = db w0 /\ calls w1 = calls w0 /\
                           results w1 = results w0) w0)
    as (w1 & -> & Hnow1 & Hdb1 & Hcalls1 & Hres1); [|done|].
  { intros j w1 Hj (Hnow & Hdb & Hcalls & Hres). eexists. split.
    - unfold lock_client, call. rewrite step_thread_do by lia.
      unfold exec_cmd. world_simpl. unfold redis_get. rewrite Hdb, Hnow, Hkey0. reflexivity.
    - by world_simpl. }
  cbn [replicate].
  (* client 0 asks for the lock and is granted it *)
  assert (exists w2,
    run ex [Run 0]
      (w1, mkThread
             (acquired <- SetNxEx (lock_key key) "locked" 10 ;;
              if truthy acquired then
                try_finally
                  (result <- Compute key ;;
                   SetEx key 10 result ;;
                   Append result ;;
                   Ret)
                  (Del (lock_key key))
              else lock_wait key 20) (now w0) ::
           replicate m
             (mkThread
                (acquired <- SetNxEx (lock_key key) "locked" 10 ;;
                 if truthy acquired then
                   try_finally
                     (result <- Compute key ;;
                      SetEx key 10 result ;;
                      Append result ;;
                      Ret)
                     (Del (lock_key key))
                 else lock_wait key 20) (now w0))) =
      (w2, mkThread
             (try_finally
                (result <- Compute key ;;
                 SetEx key 10 result ;;
                 Append result ;;
                 Ret)
                (Del (lock_key key))) (now w0) ::
           replicate m
             (mkThread
                (acquired <- SetNxEx (lock_key key) "locked" 10 ;;
                 if truthy acquired then
                   try_finally
                     (result <- Compute key ;;
                      SetEx key 10 result ;;
                      Append result ;;
                      Ret)
                     (Del (lock_key key))
                 else lock_wait key 20) (now w0))) /\
    now w2 = now w0 /\ calls w2 = calls w0 /\ results w2 = results w0 /\
    db w2 !! key = None /\
    db w2 !! lock_key key = Some (mkEntry "locked" (Some (now w0 + 1000 * 10)%N)))
    as (w2 & -> & Hnow2 & Hcalls2 & Hres2 & Hkey2 & Hlock2).
  { eexists. split.
    - apply step_head. unfold call. rewrite step_thread_do by lia.
      rewrite exec_set_nx_free by (unfold redis_get; by rewrite Hdb1, Hlock0).
      cbn [fst snd]. rewrite Hnow1. reflexivity.
    - world_simpl. unfold redis_setex. repeat split; try done.
      + rewrite lookup_insert_ne by (apply not_eq_sym, key_ne_lock). by rewrite Hdb1.
      + by rewrite lookup_insert_eq. }
  (* every other client asks for the lock and is refused *)
  destruct (lockstep_tail ex
              (mkThread
                 (try_finally
                    (result <- Compute key ;;
                     SetEx key 10 result ;;
                     Append result ;;
                     Ret)
                    (Del (lock_key key))) (now w0))
              (mkThread
                 (acquired <- SetNxEx (lock_key key) "locked" 10 ;;
                  if truthy acquired then
                    try_finally
                      (result <- Compute key ;;
                       SetEx key 10 result ;;
                       Append result ;;
                       Ret)
                      (Del (lock_key key))
                  else lock_wait key 20) (now w0))
              (mkThread (lock_wait key 20) (now w0))
              m
              (fun _ w3 => now w3 = now w0 /\ db w3 = db w2 /\ calls w3 = calls w0 /\
                           results w3 = results w0) w2)
    as (w3 & -> & Hnow3 & Hdb3 & Hcalls3 & Hres3); [|done|].
  { intros j w3 Hj (Hnow & Hdb & Hcalls & Hres). eexists. split.
    - unfold call. rewrite step_thread_do by lia.
      unfold exec_cmd. world_simpl.
      rewrite (set_nx_denied _ _ _ _ "locked").
      2:{ unfold redis_get. rewrite Hdb, Hlock2. unfold live. simpl.
          destruct (N.leb_spec (now w3) (now w0 + 1000 * 10)); [done | lia]. }
      cbn [fst snd]. rewrite Hnow. reflexivity.
    - by world_simpl. }
  (* client 0 calls the executor *)
  assert (exists w4,
    run ex [Run 0]
      (w3, mkThread
             (try_finally
                (result <- Compute key ;;
                 SetEx key 10 result ;;
                 Append result ;;
                 Ret)
                (Del (lock_key key))) (now w0) ::
           replicate m (mkThread (lock_wait key 20) (now w0))) =
      (w4, mkThread
             (try_finally
                (SetEx key 10 (PStr v) ;; Append (PStr v) ;; Ret)
                (Del (lock_key key))) (now w0 + exec_ms ex) ::
           replicate m (mkThread (lock_wait key 20) (now w0))) /\
    now w4 = now w0 /\ calls w4 = calls w0 + 1 /\ results w4 = results w0 /\
    db w4 = db w2)
    as (w4 & -> & Hnow4 & Hcalls4 & Hres4 & Hdb4).
  { eexists. split.
    - apply step_head. unfold call. cbn [try_finally]. rewrite step_thread_do by lia.
      unfold exec_cmd. world_simpl. rewrite Hnow3, Hval. reflexivity.
    - world_simpl. repeat split; try done. lia. }
  rewrite run_tick.
  (* client 0 writes the key *)
  assert (exists w5,
    run ex [Run 0]
      (advance (exec_ms ex) w4,
       mkThread
         (try_finally
            (SetEx key 10 (PStr v) ;; Append (PStr v) ;; Ret)
            (Del (lock_key key))) (now w0 + exec_ms ex) ::
       replicate m (mkThread (lock_wait key 20) (now w0))) =
      (w5, mkThread
             (try_finally (Append (PStr v) ;; Ret) (Del (lock_key key)))
             (now w0 + exec_ms ex) ::
           replicate m (mkThread (lock_wait key 20) (now w0))) /\
    now w5 = (now w0 + exec_ms ex)%N /\ calls w5 = calls w0 + 1 /\
    results w5 = results w0 /\
    db w5 !! key = Some (mkEntry v (Some (now w0 + exec_ms ex + 1000 * 10)%N)))
    as (w5 & -> & Hnow5 & Hcalls5 & Hres5 & Hkey5).
  { eexists. split.
    - apply step_head. unfold call. cbn [try_finally].
      rewrite step_thread_do by (world_simpl; lia).
      unfold exec_cmd. world_simpl. rewrite Hnow4. reflexivity.
    - world_simpl. unfold redis_setex. repeat split; try done; try lia.
      by rewrite lookup_insert_eq. }
  (* client 0 appends to [results] *)
  assert (exists w6,
    run ex [Run 0]
      (w5, mkThread
             (try_finally (Append (PStr v) ;; Ret) (Del (lock_key key)))
             (now w0 + exec_ms ex) ::
           replicate m (mkThread (lock_wait key 20) (now w0))) =
      (w6, mkThread (Del (lock_key key) ;; Ret) (now w0 + exec_ms ex) ::
           replicate m (mkThread (lock_wait key 20) (now w0))) /\
    now w6 = (now w0 + exec_ms ex)%N /\ calls w6 = calls w0 + 1 /\
    results w6 = results w0 ++ [PStr v] /\
    db w6 = db w5)
    as (w6 & -> & Hnow6 & Hcalls6 & Hres6 & Hdb6).
  { eexists. split.
    - apply step_head. unfold call. cbn [try_finally].
      rewrite step_thread_do by lia.
      unfold exec_cmd. world_simpl. rewrite Hnow5. reflexivity.
    - world_simpl. repeat split; try done. by rewrite Hres5. }
  (* client 0 deletes the lock, in the [finally] *)
  assert (exists w7,
    run ex [Run 0]
      (w6, mkThread (Del (lock_key key) ;; Ret) (now w0 + exec_ms ex) ::
           replicate m (mkThread (lock_wait key 20) (now w0))) =
      (w7, mkThread Ret (now w0 + exec_ms ex) ::
           replicate m (mkThread (lock_wait key 20) (now w0))) /\
    now w7 = (now w0 + exec_ms ex)%N /\ calls w7 = calls w0 + 1 /\
    results w7 = results w0 ++ [PStr v] /\
    db w7 !! key = db w5 !! key /\
    db w7 !! lock_key key = None)
    as (w7 & -> & Hnow7 & Hcalls7 & Hres7 & Hkey7 & Hlock7).
  { eexists. split.
    - apply step_head. unfold call.
      rewrite step_thread_do by lia.
      unfold exec_cmd. world_simpl. rewrite Hnow6. reflexivity.
    - world_simpl. unfold redis_delete. repeat split; try done.
      + rewrite lookup_delete_ne by (apply not_eq_sym, key_ne_lock). by rewrite Hdb6.
      + apply lookup_delete_eq. }
  (* every other client sleeps a tenth of a second *)
  destruct (lockstep_tail ex
              (mkThread Ret (now w0 + exec_ms ex))
              (mkThread (lock_wait key 20) (now w0))
              (mkThread
                 (cached <- Get key ;;
                  if truthy cached then Ret else lock_wait key 19)
                 (now w0 + exec_ms ex + 100))
              m
              (fun _ w8 => now w8 = (now w0 + exec_ms ex)%N /\ db w8 = db w7 /\
                           calls w8 = calls w0 + 1 /\
                           results w8 = results w0 ++ [PStr v]) w7)
    as (w8 & -> & Hnow8 & Hdb8 & Hcalls8 & Hres8); [|done|].
  { intros j w8 Hj (Hnow & Hdb & Hcalls & Hres). eexists. split.
    - cbn [lock_wait]. unfold call. rewrite step_thread_do by lia.
      unfold exec_cmd. world_simpl. rewrite Hnow. reflexivity.
    - by world_simpl. }
  rewrite run_tick.
  (* every other client reads the key and finds the value *)
  destruct (lockstep_tail ex
              (mkThread Ret (now w0 + exec_ms ex))
              (mkThread
                 (cached <- Get key ;;
                  if truthy cached then Ret else lock_wait key 19)
                 (now w0 + exec_ms ex + 100))
              (mkThread Ret (now w0 + exec_ms ex + 100))
              m
              (fun _ w9 => now w9 = (now w0 + exec_ms ex + 100)%N /\ db w9 = db w7 /\
                           calls w9 = calls w0 + 1 /\
                           results w9 = results w0 ++ [PStr v]) (advance 100 w8))
    as (w9 & -> & Hnow9 & Hdb9 & Hcalls9 & Hres9).
  { intros j w9 Hj (Hnow & Hdb & Hcalls & Hres). eexists. split.
    - unfold call. rewrite step_thread_do by lia.
      unfold exec_cmd. world_simpl.
      rewrite (redis_get_live _ _ _ _ (eq_trans (f_equal (fun d => d !! key) Hdb)
                                         (eq_trans Hkey7 Hkey5))).
      2:{ unfold live. simpl. rewrite Hnow.
          destruct (N.leb_spec (now w0 + exec_ms ex + 100) (now w0 + exec_ms ex + 1000 * 10));
            [done | lia]. }
      cbn [value]. rewrite (truthy_str v Hv), Hnow. reflexivity.
    - by world_simpl. }
  { world_simpl. repeat split; try done. lia. }
  cbn [fst snd]. repeat split.
  - exact Hcalls9.
  - by rewrite Hres9, Hres0.
  - cbn [map replicate]. f_equal. apply returned_replicate.
  - by rewrite Hdb9.
  - rewrite Hdb9, Hkey7, Hkey5. do 3 f_equal; lia.
Qed.

Lemma lock_single_flyer_witness :
  let cfg := run expensive_computation (single_flyer_schedule expensive_computation 4)
               (lock_cache_concurrent "k" 5 boot) in
  calls (fst cfg) = calls boot + 1 /\
  results (fst cfg) = [PStr "data_k_2000"] /\
  map returned (snd cfg) = replicate 5 true /\
  db (fst cfg) !! lock_key "k" = None /\
  db (fst cfg) !! "k" =
    Some (mkEntry "data_k_2000"
            (Some (now boot + exec_ms expensive_computation + 10000)%N)).
Proof.
  apply (lock_single_flyer expensive_computation "k" "data_k_2000" 4 boot).
  - reflexivity.
  - discriminate.
Defined.

(* ===================================================================== *)
(* The counts a strategy reports                                          *)
(* ===================================================================== *)

Lemma accounted_call (n : nat) (c : cmd) (k : pyval -> prog) :
  is_count c <= n + is_compute c ->
  (forall v, accounted (n + is_compute c - is_count c) (k v)) ->
  accounted n (call c k).
Proof.
  intros Hc Hk. unfold call. constructor; [done|].
  intros [v|]; [apply Hk | constructor].
Qed.

Lemma accounted_try_finally (n : nat) (p : prog) (c : cmd) :
  accounted n p -> is_count c = 0 -> accounted n (try_finally p c).
Proof.
  intros Hp Hc. induction Hp as [| |n c' k Hc' _ IH]; simpl.
  - apply accounted_call; [lia|]. intros _. constructor.
  - apply accounted_call; [lia|]. intros _. constructor.
  - constructor; [done|]. apply IH.
Qed.

#[local] Ltac account :=
  repeat first
    [ apply accounted_ret
    | apply accounted_throw
    | apply accounted_try_finally; [|reflexivity]
    | apply accounted_call; [simpl; lia | intros ?; cbv beta]
    | match goal with |- accounted _ (if ?b then _ else _) => destruct b end ].

Lemma accounted_no_cache_client (key : string) : accounted 0 (no_cache_client key).
Proof. unfold no_cache_client. account. Qed.

Lemma accounted_naive_client (key : string) : accounted 0 (naive_client key).
Proof. unfold naive_client. account. Qed.

Lemma accounted_early_client (key : string) : accounted 0 (early_client key).
Proof. unfold early_client. account. Qed.

Lemma accounted_lock_client (key : string) : accounted 0 (lock_client key).
Proof. unfold lock_client. account. Qed.

Lemma accounted_coalesce_client (key : string) : accounted 0 (coalesce_client key).
Proof. unfold coalesce_client. account. Qed.

Lemma exec_cmd_counts (ex : executor) (i : nat) (c : cmd) (w : world) :
  length (results (fst (fst (exec_cmd ex i c w)))) +
    computations (fst (fst (exec_cmd ex i c w))) =
  length (results w) + computations w + is_count c.
Proof.
  destruct c as [k|k s v|k v s|k|ms|key|v|]; simpl; try lia.
  - destruct v, (s =? 0)%N; simpl; lia.
  - destruct (s =? 0)%N; [simpl; lia|].
    destruct (redis_set_nx_ex _ _ _ _ _). simpl. lia.
  - rewrite length_app. simpl. lia.
Qed.

(** Along any run, what has been counted and what the threads have yet
    to count add up to the invocations made. *)
Lemma run_accounted (ex : executor) (sch : list event) :
  forall (w : world) (ts : list thread) (bs : list nat),
  Forall2 (fun b t => accounted b (code t)) bs ts ->
  exists bs' : list nat,
    Forall2 (fun b t => accounted b (code t)) bs' (snd (run ex sch (w, ts))) /\
    length (results (fst (run ex sch (w, ts)))) +
      computations (fst (run ex sch (w, ts))) + sum_list bs' + calls w =
    length (results w) + computations w + sum_list bs +
      calls (fst (run ex sch (w, ts))).
Proof.
  induction sch as [|e sch IH]; intros w ts bs Hbs.
  - exists bs. split; [done | simpl; lia].
  - change (run ex (e :: sch) (w, ts)) with (run ex sch (step ex (w, ts) e)).
    destruct e as [j|ms].
    2:{ rewrite step_tick. destruct (IH (advance ms w) ts bs Hbs) as (bs' & Hbs' & Hsum).
        exists bs'. split; [exact Hbs' | exact Hsum]. }
    unfold step. destruct (ts !! j) as [tj|] eqn:Hj; [|by apply IH].
    unfold step_thread.
    destruct (now w <? wake tj)%N.
    { rewrite list_insert_id by done. by apply IH. }
    destruct (code tj) as [| |c k] eqn:Hcode;
      try (rewrite list_insert_id by done; by apply IH).
    destruct (Forall2_lookup_r _ _ _ _ _ Hbs Hj) as (b & Hb & Hacc).
    rewrite Hcode in Hacc. inversion Hacc as [| |b' c' k' Hle Hk]; subst.
    pose proof (exec_cmd_calls ex j c w) as Hcalls.
    pose proof (exec_cmd_counts ex j c w) as Hcounts.
    destruct (exec_cmd ex j c w) as [[w' r] wk]. cbn [fst] in Hcalls, Hcounts.
    destruct (IH w' (<[j := mkThread (k r) wk]> ts)
                (<[j := b + is_compute c - is_count c]> bs))
      as (bs' & Hbs' & Hsum).
    { apply Forall2_insert; [done | apply Hk]. }
    exists bs'. split; [done|].
    pose proof (sum_list_insert bs j b (b + is_compute c - is_count c) Hb). lia.
Qed.

Lemma clients_accounted (ex : executor) (sch : list event) (w : world) (p : prog) (n : nat) :
  accounted 0 p ->
  length (results (fst (run ex sch (clients n p w)))) +
    computations (fst (run ex sch (clients n p w))) + calls w <=
  length (results w) + computations w + calls (fst (run ex sch (clients n p w))).
Proof.
  intros Hp. unfold clients.
  destruct (run_accounted ex sch w (replicate n (spawn p w)) (replicate n 0))
    as (bs' & _ & Hsum).
  { by apply Forall2_replicate. }
  rewrite sum_list_replicate in Hsum. lia.
Qed.

(** X16: The count a strategy prints at its end, [len(results)] or
    [computations], never exceeds the invocations of the executor made
    since it started: a client counts only after it has computed. (It can
    fall short: a client whose executor raised, and the waiter of strategy
    3 that computes after its last poll, count nothing.) *)
Theorem reported_count_at_most_invocations (s : strategy) (ex : executor)
    (sch : list event) (key : string) (n : nat) (w : world) :
  s ≠ NoCache ->
  let w' := fst (run ex sch (strategy_start s key n w)) in
  length (results w') + computations w' + calls w <= calls w'.
Proof.
  intros Hs w'. subst w'.
  assert (Hall : forall p w0, accounted 0 p -> calls w0 = calls w ->
            results w0 = [] -> computations w0 = 0 ->
            length (results (fst (run ex sch (clients n p w0)))) +
              computations (fst (run ex sch (clients n p w0))) + calls w <=
            calls (fst (run ex sch (clients n p w0)))).
  { intros p w0 Hp Hcalls Hres Hcomp.
    pose proof (clients_accounted ex sch w0 p n Hp) as H.
    rewrite Hres, Hcomp, Hcalls in H. simpl in H. lia. }
  destruct s; unfold strategy_start; [done| | | |].
  - apply Hall; [apply accounted_naive_client | done..].
  - apply Hall; [apply accounted_lock_client | done..].
  - apply Hall; [apply accounted_early_client | done..].
  - apply Hall; [apply accounted_coalesce_client | done..].
Qed.

Lemma reported_count_at_most_invocations_witness :
  let w' := fst (run expensive_computation (round_robin 5 3)
                   (strategy_start LockBased "k" 5 boot)) in
  length (results w') + computations w' + calls boot <= calls w'.
Proof.
  apply (reported_count_at_most_invocations LockBased expensive_computation
           (round_robin 5 3) "k" 5 boot).
  discriminate.
Defined.

(* ===================================================================== *)
(* The menu                                                               *)
(* ===================================================================== *)

Lemma menu_choice_exit (choice : string) :
  menu_choice choice = None <-> choice = "7".
Proof.
  unfold menu_choice. split.
  - repeat match goal with
           | |- context [String.eqb ?a ?b] =>
               destruct (String.eqb_spec a b); [try done|]
           end; done.
  - by intros ->.
Qed.

Lemma menu_loop_stops_at_exit (strip : string -> string) (up : nat -> bool)
    (before after : list string) (line : string) :
  strip line = "7" ->
  forall i : nat,
  menu_loop strip up i (before ++ line :: after) =
  match menu_loop strip up i before with
  | (steps, InputEnded) => (steps, Exited)
  | ended => ended
  end.
Proof.
  intros Hline. induction before as [|l before IH]; intros i; simpl.
  - by rewrite Hline.
  - destruct (menu_choice (strip l)) as [steps|]; [|done].
    destruct (run_steps up i steps) as [[begun failed] j].
    destruct failed as [s|]; [done|].
    rewrite IH. destruct (menu_loop strip up j before) as [more e]. by destruct e.
Qed.

(** X17: [main] leaves its loop at the first line that strips to 7: what is
    typed after it is never read. When the lines before it are got through
    (no set-up of a strategy raises on them), [main] does on them what it
    would have done without the 7 and then returns; when a set-up raises on
    them, [main] ends there as it would have without the 7, and the 7 is
    never read either. *)
Theorem main_stops_at_exit (strip : string -> string) (up : nat -> bool)
    (before after : list string) (line : string) :
  strip line = "7" ->
  main strip up (before ++ line :: after) =
  match main strip up before with
  | (steps, InputEnded) => (steps, Exited)
  | ended => ended
  end.
Proof.
  intros Hline. unfold main.
  rewrite (menu_loop_stops_at_exit strip up before after line Hline 0).
  destruct (menu_loop strip up 0 before) as [steps e]. by destruct e.
Qed.

Lemma main_stops_at_exit_witness :
  main (fun s => s) (fun _ => true) (["2"; "x"] ++ "7" :: ["3"; "7"]) =
  match main (fun s => s) (fun _ => true) ["2"; "x"] with
  | (steps, InputEnded) => (steps, Exited)
  | ended => ended
  end.
Proof.
  apply (main_stops_at_exit (fun s => s) (fun _ => true) ["2"; "x"] ["3"; "7"] "7").
  reflexivity.
Defined.

Lemma run_steps_up (up : nat -> bool) (steps : list menu_step) :
  (forall j, up j = true) ->
  forall i, snd (fst (run_steps up i steps)) = None.
Proof.
  intros Hup. induction steps as [|step steps IH]; intros i; [done|].
  destruct step as [s| |]; cbn [run_steps].
  - rewrite Hup, andb_false_r. specialize (IH (S i)).
    by destruct (run_steps up (S i) steps) as [[begun failed] j].
  - specialize (IH i). by destruct (run_steps up i steps) as [[begun failed] j].
  - specialize (IH i). by destruct (run_steps up i steps) as [[begun failed] j].
Qed.

(** X18: [main] returns only through choice 7: when it returns, some line
    stripped to 7; and while Redis answers every set-up, it returns as soon
    as some line strips to 7. (Without such a line the loop ends on
    [input] at the end of the input.) *)
Theorem main_returns_only_through_exit (strip : string -> string) (up : nat -> bool)
    (lines : list string) :
  (snd (main strip up lines) = Exited ->
   exists line, line ∈ lines /\ strip line = "7") /\
  ((forall j, up j = true) ->
   (exists line, line ∈ lines /\ strip line = "7") ->
   snd (main strip up lines) = Exited) /\
  (snd (main strip up lines) = InputEnded ->
   forall line, line ∈ lines -> strip line ≠ "7").
Proof.
  unfold main.
  assert (Hloop : forall i,
    (snd (menu_loop strip up i lines) = Exited ->
     exists line, line ∈ lines /\ strip line = "7") /\
    ((forall j, up j = true) ->
     (exists line, line ∈ lines /\ strip line = "7") ->
     snd (menu_loop strip up i lines) = Exited) /\
    (snd (menu_loop strip up i lines) = InputEnded ->
     forall line, line ∈ lines -> strip line ≠ "7")).
  { induction lines as [|l lines IH]; intros i; simpl.
    - split; [done|]. split.
      + intros _ (line & Hin & _). by apply not_elem_of_nil in Hin.
      + intros _ line Hin. by apply not_elem_of_nil in Hin.
    - destruct (menu_choice (strip l)) as [steps|] eqn:Hchoice.
      + pose proof (run_steps_up up steps) as Hsteps.
        destruct (run_steps up i steps) as [[begun failed] j] eqn:Hrun.
        assert (Hl : strip l ≠ "7").
        { intros H7. apply menu_choice_exit in H7. congruence. }
        destruct failed as [s|].
        * split; [done|]. split; [|done].
          intros Hup _. specialize (Hsteps Hup i). rewrite Hrun in Hsteps. done.
        * destruct (IH j) as (IH1 & IH2 & IH3).
          destruct (menu_loop strip up j lines) as [more e]. simpl in *.
          split; [|split].
          -- intros He. destruct (IH1 He) as (line & Hin & Hline).
             exists line. split; [by apply elem_of_cons; right | done].
          -- intros Hup (line & Hin & Hline). apply IH2; [done|].
             apply elem_of_cons in Hin as [->|Hin]; [done|]. by exists line.
          -- intros He line Hin. apply elem_of_cons in Hin as [->|Hin]; [done|].
             by apply IH3.
      + simpl. split; [|split; [done|done]].
        intros _. exists l. split; [by apply elem_of_cons; left | by apply menu_choice_exit]. }
  destruct (Hloop 0) as (H1 & H2 & H3).
  destruct (menu_loop strip up 0 lines) as [steps e]. simpl in *. done.
Qed.

Lemma menu_choice_runs (choice : string) (steps : list menu_step) (s : strategy) :
  menu_choice choice = Some steps -> RunStrategy s ∈ steps ->
  choice = choice_of s \/ choice = "6".
Proof.
  unfold menu_choice.
  repeat match goal with
         | |- context [String.eqb ?a ?b] => destruct (String.eqb_spec a b)
         end; intros Hsteps Hin; try discriminate; simplify_eq;
    repeat (apply elem_of_cons in Hin as [Hin|Hin]; [simplify_eq; auto|]);
    by apply not_elem_of_nil in Hin.
Qed.

(** Only steps of the choice are begun. *)
Lemma run_steps_begun (up : nat -> bool) (steps : list menu_step) (step : menu_step) :
  forall i, step ∈ fst (fst (run_steps up i steps)) -> step ∈ steps.
Proof.
  induction steps as [|st steps IH]; intros i; [done|].
  destruct st as [s| |]; cbn [run_steps].
  - destruct (calls_redis_in_setup s && negb (up i)).
    + simpl. intros Hin. apply elem_of_cons in Hin as [->|Hin]; [by left|].
      by apply not_elem_of_nil in Hin.
    + specialize (IH (S i)).
      destruct (run_steps up (S i) steps) as [[begun failed] j]. simpl in *.
      intros Hin. apply elem_of_cons in Hin as [->|Hin]; [by left | right; by apply IH].
  - specialize (IH i). destruct (run_steps up i steps) as [[begun failed] j]. simpl in *.
    intros Hin. apply elem_of_cons in Hin as [->|Hin]; [by left | right; by apply IH].
  - specialize (IH i). destruct (run_steps up i steps) as [[begun failed] j]. simpl in *.
    intros Hin. apply elem_of_cons in Hin as [->|Hin]; [by left | right; by apply IH].
Qed.

(** X19: [main] runs a strategy only when asked to: for every strategy it
    runs, some line stripped to the number of that strategy or to 6. *)
Theorem main_runs_only_chosen (strip : string -> string) (up : nat -> bool)
    (lines : list string) (s : strategy) :
  RunStrategy s ∈ fst (main strip up lines) ->
  exists line, line ∈ lines /\ (strip line = choice_of s \/ strip line = "6").
Proof.
  unfold main.
  assert (Hloop : forall i, RunStrategy s ∈ fst (menu_loop strip up i lines) ->
                  exists line, line ∈ lines /\
                    (strip line = choice_of s \/ strip line = "6")).
  { induction lines as [|l lines IH]; intros i; simpl.
    - intros Hin. by apply not_elem_of_nil in Hin.
    - destruct (menu_choice (strip l)) as [steps|] eqn:Hchoice.
      + pose proof (run_steps_begun up steps (RunStrategy s) i) as Hbegun.
        destruct (run_steps up i steps) as [[begun failed] j]. simpl in Hbegun.
        assert (Hhere : RunStrategy s ∈ begun ->
                  exists line, line ∈ l :: lines /\
                    (strip line = choice_of s \/ strip line = "6")).
        { intros Hin. exists l. split; [by apply elem_of_cons; left|].
          apply (menu_choice_runs _ steps); [done | by apply Hbegun]. }
        destruct failed as [s'|]; [exact Hhere|].
        specialize (IH j). destruct (menu_loop strip up j lines) as [more e]. simpl in *.
        intros Hin. apply elem_of_app in Hin as [Hin|Hin]; [by apply Hhere|].
        destruct (IH Hin) as (line & Hl & Hline).
        exists line. split; [by apply elem_of_cons; right | done].
      + simpl. intros Hin. by apply not_elem_of_nil in Hin. }
  specialize (Hloop 0).
  destruct (menu_loop strip up 0 lines) as [steps e]. simpl in *.
  intros Hin. apply elem_of_cons in Hin as [Hin|Hin]; [discriminate | by apply Hloop].
Qed.

Lemma main_runs_only_chosen_witness :
  exists line, line ∈ ["x"; "6"; "7"] /\
    (line = choice_of LockBased \/ line = "6").
Proof.
  apply (main_runs_only_chosen (fun s => s) (fun _ => true) ["x"; "6"; "7"] LockBased).
  vm_compute. do 6 right. left.
Defined.

(* ===================================================================== *)
(* The marker of strategy 5 is not given back on the way out              *)
(* ===================================================================== *)

#[local] Ltac no_delete :=
  let Hin := fresh "Hin" in
  intros Hin;
  repeat (apply elem_of_cons in Hin as [Hin|Hin]; [discriminate|]);
  by apply not_elem_of_nil in Hin.

(** X20: Strategy 5 has no [finally]: a client that found no marker and
    wrote its own, and one of whose next five calls raises (a Redis call,
    or the executor), comes to its end with the marker never deleted,
    which is then left to its five-second expiry; the same holds when it
    ends early because the result slot already held a value. *)
Theorem coalescing_error_leaves_marker (key : string) (c m : pyval) (rs : list reply) :
  truthy c = false -> truthy m = false ->
  Exn ∈ take 5 rs ->
  let ended := feed (coalesce_client key) (Val c :: Val m :: rs) in
  finished (snd ended) = true /\
  (Del (computing_key key) ∉ fst ended) /\
  (SetEx (computing_key key) 5 (PStr "1") ∈ fst ended).
Proof.
  intros Hc Hm Hex. unfold coalesce_client, call. cbn [feed]. rewrite Hc.
  cbn [feed]. rewrite Hm.
  destruct rs as [|[v1|] rs]; cbn [feed fst snd take] in *.
  { by apply not_elem_of_nil in Hex. }
  2:{ repeat split; [no_delete | repeat constructor]. }
  destruct rs as [|[v2|] rs]; cbn [feed fst snd take] in *.
  { apply elem_of_cons in Hex as [Hex|Hex]; [discriminate|]. by apply not_elem_of_nil in Hex. }
  2:{ repeat split; [no_delete | repeat constructor]. }
  destruct (truthy v2).
  { destruct rs as [|[v3|] rs]; cbn [feed fst snd take] in *.
    - do 2 (apply elem_of_cons in Hex as [Hex|Hex]; [discriminate|]).
      by apply not_elem_of_nil in Hex.
    - repeat split; [no_delete | repeat constructor].
    - repeat split; [no_delete | repeat constructor]. }
  destruct rs as [|[v3|] rs]; cbn [feed fst snd take] in *.
  { do 2 (apply elem_of_cons in Hex as [Hex|Hex]; [discriminate|]).
    by apply not_elem_of_nil in Hex. }
  2:{ repeat split; [no_delete | repeat constructor]. }
  destruct rs as [|[v4|] rs]; cbn [feed fst snd take] in *.
  { do 3 (apply elem_of_cons in Hex as [Hex|Hex]; [discriminate|]).
    by apply not_elem_of_nil in Hex. }
  2:{ repeat split; [no_delete | repeat constructor]. }
  destruct rs as [|[v5|] rs]; cbn [feed fst snd take] in *.
  { do 4 (apply elem_of_cons in Hex as [Hex|Hex]; [discriminate|]).
    by apply not_elem_of_nil in Hex. }
  2:{ repeat split; [no_delete | repeat constructor]. }
  do 5 (apply elem_of_cons in Hex as [Hex|Hex]; [discriminate|]).
  by apply not_elem_of_nil in Hex.
Qed.

Lemma coalescing_error_leaves_marker_witness :
  let ended := feed (coalesce_client "k")
                 [Val PNone; Val PNone; Val (PBool true); Val PNone;
                  Val (PStr "v"); Exn] in
  finished (snd ended) = true /\
  (Del (computing_key "k") ∉ fst ended) /\
  (SetEx (computing_key "k") 5 (PStr "1") ∈ fst ended).
Proof.
  apply (coalescing_error_leaves_marker "k" PNone PNone
           [Val (PBool true); Val PNone; Val (PStr "v"); Exn]).
  - reflexivity.
  - reflexivity.
  - vm_compute. do 3 right. left.
Defined.
